(** * Game of Life: the grid/cell state model of [gamestate.py]

    A shallow embedding of the classes [Cell] and [Grid] of
    [src/gamestate.py] and the properties of its update engine.

    Python objects are mutated in place and may raise; the embedding
    threads the grid and the sequence of emitted [cell_changed] signals
    through a small state monad whose computations end in a returned
    value or in a raised exception, the state being kept in both cases. *)

From Stdlib Require Import ZArith Lia Bool.
From Stdlib Require Import Floats.SpecFloat.
From stdpp Require Import base list gmap.

Local Open Scope Z_scope.

(** ** Python values used by the module *)

(** Exceptions the module can raise. *)
Inductive exn : Type :=
  | IndexError
  | ZeroDivisionError.

(** The outcome of a call: a returned value or a raised exception. *)
Inductive outcome (A : Type) : Type :=
  | Return (a : A)
  | Raise (e : exn).
Arguments Return {A} a.
Arguments Raise {A} e.

(** [l[i]] on a Python list: indices [-len .. -1] count from the end,
    anything outside [-len .. len-1] raises [IndexError]. *)
Definition py_norm_index (len : nat) (i : Z) : option nat :=
  if (0 <=? i) && (i <? Z.of_nat len) then Some (Z.to_nat i)
  else if (- Z.of_nat len <=? i) && (i <? 0) then Some (Z.to_nat (i + Z.of_nat len))
  else None.

(** [range(lo, hi)]: empty when [hi <= lo]. *)
Definition py_range (lo hi : Z) : list Z :=
  (λ k : nat, lo + Z.of_nat k) <$> seq 0 (Z.to_nat (hi - lo)).

(** Truth value of an [int]. *)
Definition py_truthy (v : Z) : bool := negb (v =? 0).

(** ** Python floats: IEEE 754 binary64 *)

Module PyFloat.

Definition prec : Z := 53.
Definition emax : Z := 1024.
Definition t : Type := spec_float.

(** The float nearest to [n / d], both integers, [d > 0]: the quotient is
    rounded once, from the exact operands. *)
Definition of_ratio (n : Z) (d : positive) : t :=
  match n with
  | Z0 => S754_zero false
  | Zpos p => SFdiv prec emax (S754_finite false p 0) (S754_finite false d 0)
  | Zneg p => SFdiv prec emax (S754_finite true p 0) (S754_finite false d 0)
  end.

(** The float [1.0]. *)
Definition one : t := S754_finite false 4503599627370496 (-52).

(** A number passed by a caller: an [int] or a [float]. *)
Inductive number : Type :=
  | Int (n : Z)
  | Float (x : t).


(** [1 / fps], true division: for an [int] the quotient of the two integers,
    correctly rounded; for a [float] the IEEE quotient; [ZeroDivisionError]
    when [fps] is [0], [0.0] or [-0.0]. *)
Definition one_over (fps : number) : outcome t :=
  match fps with
  | Int Z0 => Raise ZeroDivisionError
  | Int (Zpos d) => Return (of_ratio 1 d)
  | Int (Zneg d) => Return (of_ratio (-1) d)
  | Float (S754_zero _) => Raise ZeroDivisionError
  | Float x => Return (SFdiv prec emax one x)
  end.

(** The integer nearest to [m * 2^e], ties to the even one. *)
Definition nearest_even_int (m : Z) (e : Z) : Z :=
  match e with
  | Zneg k =>
      let d := Z.pow_pos 2 k in
      let q := m / d in
      let r := m mod d in
      match 2 * r ?= d with
      | Lt => q
      | Gt => q + 1
      | Eq => if Z.even q then q else q + 1
      end
  | _ => m * 2 ^ e
  end.

(** [round(x, 3)]: the exact value of [x] is rounded to the nearest
    multiple of [1/1000], ties to the even multiple, and the float nearest
    to that decimal is returned; infinities and NaN are returned as they
    are, and the sign of a zero result is the sign of [x]. *)
Definition round3 (x : t) : t :=
  match x with
  | S754_finite s m e =>
      match nearest_even_int (1000 * Zpos m) e with
      | Zpos k =>
          SFdiv prec emax (S754_finite s k 0) (S754_finite false 1000 0)
      | _ => S754_zero s
      end
  | _ => x
  end.

(** The literals of the module and of its documentation, by mantissa and
    exponent: [0.03] is [8646911284551352 * 2^-58], [0.033] is
    [4755801206503244 * 2^-57] and [0.1] is [7205759403792794 * 2^-56]. *)
Definition lit_0_03 : t := S754_finite false 8646911284551352 (-58).
Definition lit_0_033 : t := S754_finite false 4755801206503244 (-57).
Definition lit_0_1 : t := S754_finite false 7205759403792794 (-56).

(** *** What a correctly rounded result is, in integers *)

(** [x] is the float nearest to the fraction [n / d], [0 < n / d <= 1]:
    a normal float [m * 2^-k] whose distance to [n / d] is at most half the
    gap to its neighbour on that side, with an even mantissa when [n / d]
    is half way.  Multiplied by [d * 2^k], the distance is
    [|d * m - n * 2^k|] and the gap above is [d]; the gap below is [d] too,
    or [d / 2] under a power of two. *)
Definition nearest_to_ratio (n d : Z) (x : t) : bool :=
  match x with
  | S754_finite false m (Zneg k) =>
      let above := n * 2 ^ Zpos k - d * Zpos m in
      (2 ^ 52 <=? Zpos m) && (Zpos m <? 2 ^ 53) && (-1074 <=? Zneg k) &&
      (2 * above <=? d) &&
      (if Zpos m =? 2 ^ 52 then 4 * (- above) <=? d else 2 * (- above) <=? d) &&
      (if 2 * Z.abs above =? d then Z.even (Zpos m) else true)
  | _ => false
  end.

(** [k] is the integer nearest to [1000 * m * 2^e], the even one of the two
    when it is half way between them. *)
Definition nearest_thousandth (m : positive) (e : Z) (k : Z) : bool :=
  match e with
  | Zneg j =>
      let off := Z.abs (2 * (1000 * Zpos m) - 2 * k * 2 ^ Zpos j) in
      (off <=? 2 ^ Zpos j) && (if off =? 2 ^ Zpos j then Z.even k else true)
  | _ => k =? 1000 * Zpos m * 2 ^ e
  end.





End PyFloat.

(** ** The class [Cell] *)

Module Cell.

(** The attributes of a cell. *)
Record t : Type := mk { _value : Z; _alive_time : Z }.

(** A method takes the cell, and gives its result, the cell after the call
    and the arguments of every [cell_changed.emit] it made, in order. *)
Definition method (A : Type) : Type := t → A * t * list (Z * Z).

(** [__init__] *)
Definition init : t := mk 0 0.

Definition get_value : method Z :=
  λ c, (_value c, c, []).

Definition get_time : method Z :=
  λ c, (_alive_time c, c, []).

Definition reset_time : method unit :=
  λ c, (tt, mk (_value c) 0, []).

Definition toggle_value : method unit :=
  λ c,
    let c1 := mk (if _value c =? 0 then 1 else 0) (_alive_time c) in
    let c2 := if _value c1 =? 0 then (reset_time c1).1.2 else c1 in
    (tt, c2, [(_value c2, _alive_time c2)]).

Definition increase_time : method unit :=
  λ c,
    let c1 := mk (_value c) (_alive_time c + 1) in
    (tt, c1, [(_value c1, _alive_time c1)]).

Definition set_time (value : Z) : method unit :=
  λ c, (tt, mk (_value c) value, []).

End Cell.

(** ** The class [Grid] and the state of the program *)

(** The attributes of a grid. *)
Record GridObj : Type := mkGrid {
  _rows : Z;
  _cols : Z;
  _cells : list (list Cell.t);
  _sleep : PyFloat.t
}.

(** A cell object is identified with its slot in [_cells]: no cell is stored
    twice, and the lists never change length after construction. *)
Definition CellRef : Type := (nat * nat)%type.

(** One call of [cell_changed.emit]: the emitting cell and the two
    arguments passed to [emit], Python ints. *)
Record Emission : Type := mkEmission {
  em_cell : CellRef;
  em_value : Z;
  em_time : Z
}.

(** The grid ([self]) and every signal emitted so far. *)
Record World : Type := mkWorld {
  self : GridObj;
  emitted : list Emission
}.

(** Computations over the world that return or raise. *)
Definition Py (A : Type) : Type := World → outcome A * World.

#[global] Instance Py_ret : MRet Py := λ A a w, (Return a, w).
#[global] Instance Py_bind : MBind Py := λ A B f m w,
  match m w with
  | (Return a, w') => f a w'
  | (Raise e, w') => (Raise e, w')
  end.

(** Reading an attribute of [self]. *)
Definition attr {A : Type} (field : GridObj → A) : Py A :=
  λ w, (Return (field (self w)), w).

Definition set_cells (cells : list (list Cell.t)) (g : GridObj) : GridObj :=
  mkGrid (_rows g) (_cols g) cells (_sleep g).

Definition set__sleep (s : PyFloat.t) (g : GridObj) : GridObj :=
  mkGrid (_rows g) (_cols g) (_cells g) s.

(** [for x in xs: body(x)] *)
Fixpoint for_each {A : Type} (xs : list A) (body : A → Py unit) : Py unit :=
  match xs with
  | [] => mret tt
  | x :: xs' => body x ≫= λ _, for_each xs' body
  end.

(** A [for] loop whose body updates a local variable. *)
Fixpoint for_fold {A S : Type} (xs : list A) (acc : S) (body : S → A → Py S) : Py S :=
  match xs with
  | [] => mret acc
  | x :: xs' => body acc x ≫= λ acc', for_fold xs' acc' body
  end.

(** [self._cells[row][col]]: the cell object found there. *)
Definition subscript (row col : Z) : Py CellRef :=
  λ w,
    match py_norm_index (length (_cells (self w))) row with
    | None => (Raise IndexError, w)
    | Some i =>
        match _cells (self w) !! i with
        | None => (Raise IndexError, w)
        | Some cells_row =>
            match py_norm_index (length cells_row) col with
            | None => (Raise IndexError, w)
            | Some j => (Return (i, j), w)
            end
        end
    end.

(** The state of the cell object [ref]. *)
Definition deref (g : GridObj) (ref : CellRef) : option Cell.t :=
  _cells g !! ref.1 ≫= λ cells_row, cells_row !! ref.2.

(** Storing a new state for the cell object [ref]. *)
Definition store (ref : CellRef) (c : Cell.t) (g : GridObj) : GridObj :=
  set_cells (alter (λ cells_row, <[ref.2 := c]> cells_row) ref.1 (_cells g)) g.

(** [ref.m()]: a method call on a cell object; the cell is updated in place
    and its signals are emitted.  A reference to no cell cannot be built by
    the program; the call is then modelled as raising. *)
Definition invoke {A : Type} (ref : CellRef) (m : Cell.method A) : Py A :=
  λ w,
    match deref (self w) ref with
    | None => (Raise IndexError, w)
    | Some c =>
        let '(a, c', signals) := m c in
        (Return a,
         mkWorld (store ref c' (self w))
                 (emitted w ++ ((λ s, mkEmission ref s.1 s.2) <$> signals)))
    end.

(** The three lists of [list_of_changes]. *)
Record Changes : Type := mkChanges {
  birth : list (Z * Z);
  survival : list (Z * Z);
  death : list (Z * Z)
}.

Module Grid.

(** [Grid(rows, cols)]: [rows] lists of [cols] fresh dead cells each. *)
Definition init (rows cols : Z) : GridObj :=
  mkGrid rows cols
    (foldl (λ cells _, cells ++ [foldl (λ cells_row _, cells_row ++ [Cell.init])
                                       [] (py_range 0 cols)])
           [] (py_range 0 rows))
    PyFloat.lit_0_03.

Definition get_cell (row col : Z) : Py CellRef :=
  subscript row col.

Definition get_dimensions : Py (Z * Z) :=
  rows ← attr _rows;
  cols ← attr _cols;
  mret (rows, cols).

Definition reset : Py unit :=
  rows ← attr _rows;
  for_each (py_range 0 rows) (λ row,
    cols ← attr _cols;
    for_each (py_range 0 cols) (λ col,
      cell ← subscript row col;
      v ← invoke cell Cell.get_value;
      if v =? 1 then invoke cell Cell.toggle_value else mret tt)).

(** [count += self._cells[row][col].get_value()] *)
Definition add_value (count row col : Z) : Py Z :=
  cell ← subscript row col;
  v ← invoke cell Cell.get_value;
  mret (count + v).

(** [if col > 0: ...left...] followed by [if col < self._cols - 1: ...right...],
    the pattern shared by the three rows of the neighbourhood. *)
Definition add_left_right (count row col : Z) : Py Z :=
  count ← (if 0 <? col then add_value count row (col - 1) else mret count);
  cols ← attr _cols;
  if col <? cols - 1 then add_value count row (col + 1) else mret count.

Definition alive_neighbors (row col : Z) : Py Z :=
  let count := 0 in
  count ← (if 0 <? row then
             count ← add_value count (row - 1) col;
             add_left_right count (row - 1) col
           else mret count);
  rows ← attr _rows;
  count ← (if row <? rows - 1 then
             count ← add_value count (row + 1) col;
             add_left_right count (row + 1) col
           else mret count);
  add_left_right count row col.

(** The body of the two nested loops of [update_grid]. *)
Definition classify (changes : Changes) (row col : Z) : Py Changes :=
  cell_neighbors ← alive_neighbors row col;
  cell ← subscript row col;
  v ← invoke cell Cell.get_value;
  if py_truthy v then
    if (cell_neighbors =? 2) || (cell_neighbors =? 3) then
      mret (mkChanges (birth changes) (survival changes ++ [(row, col)]) (death changes))
    else
      mret (mkChanges (birth changes) (survival changes) (death changes ++ [(row, col)]))
  else
    cell ← subscript row col;
    v ← invoke cell Cell.get_value;
    if negb (py_truthy v) && (cell_neighbors =? 3) then
      mret (mkChanges (birth changes ++ [(row, col)]) (survival changes) (death changes))
    else mret changes.

(** The first phase of [update_grid]: fill [list_of_changes]. *)
Definition compute_changes : Py Changes :=
  rows ← attr _rows;
  for_fold (py_range 0 rows) (mkChanges [] [] []) (λ changes row,
    cols ← attr _cols;
    for_fold (py_range 0 cols) changes (λ changes col,
      classify changes row col)).

(** The second phase of [update_grid]: apply the three lists in order. *)
Definition commit_changes (changes : Changes) : Py unit :=
  for_each (birth changes) (λ coords,
    cell ← subscript coords.1 coords.2;
    invoke cell Cell.toggle_value);;
  for_each (survival changes) (λ coords,
    cell ← subscript coords.1 coords.2;
    invoke cell Cell.increase_time);;
  for_each (death changes) (λ coords,
    cell ← subscript coords.1 coords.2;
    invoke cell Cell.toggle_value;;
    cell ← subscript coords.1 coords.2;
    invoke cell Cell.reset_time).

Definition update_grid : Py unit :=
  list_of_changes ← compute_changes;
  commit_changes list_of_changes.

Definition get_sleep : Py PyFloat.t :=
  attr _sleep.

Definition set_sleep (fps : PyFloat.number) : Py unit :=
  λ w,
    match PyFloat.one_over fps with
    | Raise e => (Raise e, w)
    | Return x =>
        (Return tt, mkWorld (set__sleep (PyFloat.round3 x) (self w)) (emitted w))
    end.

End Grid.

(** ** Well-formed grids and the view of a grid as a function of coordinates *)

(** What [Grid.__init__] establishes and every method keeps: [_cells] holds
    [_rows] lists of [_cols] cells, and every [_value] is 0 or 1. *)
Definition well_shaped (g : GridObj) : Prop :=
  length (_cells g) = Z.to_nat (_rows g) ∧
  Forall (λ cells_row, length cells_row = Z.to_nat (_cols g)) (_cells g).

Definition binary_valued (g : GridObj) : Prop :=
  Forall (Forall (λ c, Cell._value c = 0 ∨ Cell._value c = 1)) (_cells g).

Definition well_formed (g : GridObj) : Prop :=
  well_shaped g ∧ binary_valued g.

#[global] Instance well_formed_dec g : Decision (well_formed g).
Proof. unfold well_formed, well_shaped, binary_valued. apply _. Defined.

Definition in_bounds (g : GridObj) (row col : Z) : Prop :=
  0 ≤ row < _rows g ∧ 0 ≤ col < _cols g.

Definition in_boundsb (g : GridObj) (p : Z * Z) : bool :=
  (0 <=? p.1) && (p.1 <? _rows g) && (0 <=? p.2) && (p.2 <? _cols g).

(** The cell object at an in-bounds coordinate. *)
Definition ref_of (p : Z * Z) : CellRef := (Z.to_nat p.1, Z.to_nat p.2).

(** The cell at a coordinate, [None] outside the grid. *)
Definition cell_at (g : GridObj) (p : Z * Z) : option Cell.t :=
  if in_boundsb g p then deref g (ref_of p) else None.

(** The value at a coordinate, where a position outside the grid counts as
    dead. *)
Definition alive_at (g : GridObj) (p : Z * Z) : Z :=
  match cell_at g p with Some c => Cell._value c | None => 0 end.

Definition is_alive (g : GridObj) (p : Z * Z) : bool :=
  alive_at g p =? 1.

(** The eight offsets of the Moore neighbourhood. *)
Definition moore_offsets : list (Z * Z) :=
  [(-1, -1); (-1, 0); (-1, 1); (0, -1); (0, 1); (1, -1); (1, 0); (1, 1)].

(** The neighbour positions of [(row, col)] that lie in the grid. *)
Definition neighbors (g : GridObj) (row col : Z) : list (Z * Z) :=
  filter (λ p, in_boundsb g p) ((λ d, (row + d.1, col + d.2)) <$> moore_offsets).

(** The number of alive cells among them. *)
Definition moore_count (g : GridObj) (row col : Z) : Z :=
  Z.of_nat (length (filter (λ p, is_alive g p) (neighbors g row col))).

(** All coordinates of the grid, row by row. *)
Definition all_coords (g : GridObj) : list (Z * Z) :=
  row ← py_range 0 (_rows g); (λ col, (row, col)) <$> py_range 0 (_cols g).

(** The alive cells of the grid, row by row. *)
Definition alive_cells (g : GridObj) : list (Z * Z) :=
  filter (λ p, is_alive g p) (all_coords g).

(** The Cell invariant of the data model. *)
Definition dead_means_zero (c : Cell.t) : Prop :=
  Cell._value c = 0 → Cell._alive_time c = 0.

Definition duration_invariant (g : GridObj) : Prop :=
  Forall (Forall dead_means_zero) (_cells g).

#[global] Instance duration_invariant_dec g : Decision (duration_invariant g).
Proof. unfold duration_invariant, dead_means_zero. apply _. Defined.


(** ** One generation, as a function of the grid before the call *)

(** What a call of [update_grid] has in store for a cell. *)
Inductive fate : Type := Born | Survives | Dies | Stays.

#[global] Instance fate_eq_dec : EqDecision fate.
Proof. solve_decision. Defined.

(** The test made by the body of the loops of [update_grid], on the value of
    the cell and the number of its alive neighbours. *)
Definition fate_of_cell (v n : Z) : fate :=
  if py_truthy v then
    if (n =? 2) || (n =? 3) then Survives else Dies
  else if negb (py_truthy v) && (n =? 3) then Born else Stays.

Definition fate_of (g : GridObj) (p : Z * Z) : fate :=
  fate_of_cell (alive_at g p) (moore_count g p.1 p.2).

(** [list_of_changes] with the coordinate [p] filed. *)
Definition file_change (g : GridObj) (changes : Changes) (p : Z * Z) : Changes :=
  match fate_of g p with
  | Born => mkChanges (birth changes ++ [p]) (survival changes) (death changes)
  | Survives => mkChanges (birth changes) (survival changes ++ [p]) (death changes)
  | Dies => mkChanges (birth changes) (survival changes) (death changes ++ [p])
  | Stays => changes
  end.

(** The three lists filled by the first phase, read off the grid. *)
Definition changes_of (g : GridObj) : Changes :=
  mkChanges (filter (λ p, fate_of g p = Born) (all_coords g))
            (filter (λ p, fate_of g p = Survives) (all_coords g))
            (filter (λ p, fate_of g p = Dies) (all_coords g)).

(** The cell object [ref] after a state change [f], other cells as they were. *)
Definition modify (ref : CellRef) (f : Cell.t → Cell.t) (g : GridObj) : GridObj :=
  match deref g ref with
  | Some c => store ref (f c) g
  | None => g
  end.

Definition modify_all (f : Cell.t → Cell.t) (ps : list (Z * Z)) (g : GridObj) : GridObj :=
  foldl (λ g p, modify (ref_of p) f g) g ps.

(** The state of a cell after a method call. *)
Definition after {A : Type} (m : Cell.method A) (c : Cell.t) : Cell.t := (m c).1.2.

(** The grid after the second phase. *)
Definition commit_of (changes : Changes) (g : GridObj) : GridObj :=
  modify_all (λ c, after Cell.reset_time (after Cell.toggle_value c)) (death changes)
    (modify_all (after Cell.increase_time) (survival changes)
       (modify_all (after Cell.toggle_value) (birth changes) g)).

(** The state of a cell after the call, by its fate. *)
Definition next_cell (c : Cell.t) (what : fate) : Cell.t :=
  match what with
  | Born => after Cell.toggle_value c
  | Survives => after Cell.increase_time c
  | Dies => after Cell.reset_time (after Cell.toggle_value c)
  | Stays => c
  end.

(** ** Programs over the public interface *)

(** A world holding a freshly constructed grid. *)
Definition fresh (rows cols : Z) : World := mkWorld (Grid.init rows cols) [].

(** The world left by a program, whether it returned or raised. *)
Definition world_after {A : Type} (prog : Py A) (w : World) : World := (prog w).2.

(** [grid.get_cell(row, col).m()] *)
Definition call_cell {A : Type} (row col : Z) (m : Cell.method A) : Py A :=
  cell ← Grid.get_cell row col; invoke cell m.

(** A 5x5 grid whose only alive cell is (2,2). *)
Definition single_alive_5x5 : World :=
  world_after (call_cell 2 2 Cell.toggle_value) (fresh 5 5).

(** A 2x2 grid with (0,0), (0,1), (1,0) alive, and the dead cell (1,1) given
    the duration 5 through [set_time]. *)
Definition dead_with_duration_2x2 : World :=
  world_after (call_cell 0 0 Cell.toggle_value;;
               call_cell 0 1 Cell.toggle_value;;
               call_cell 1 0 Cell.toggle_value;;
               call_cell 1 1 (Cell.set_time 5))
              (fresh 2 2).

(** A 5x5 grid whose alive cells are the horizontal blinker of row 1. *)
Definition blinker_5x5 : World :=
  world_after (call_cell 1 1 Cell.toggle_value;;
               call_cell 1 2 Cell.toggle_value;;
               call_cell 1 3 Cell.toggle_value)
              (fresh 5 5).

(** The birth rule with the alive time 0 after the call for every dead cell,
    whatever its alive time before. *)
Definition birth_rule_as_stated : Prop :=
  ∀ (w : World) (row col : Z) (c : Cell.t),
    well_formed (self w) →
    in_bounds (self w) row col →
    cell_at (self w) (row, col) = Some c →
    Cell._value c = 0 →
    moore_count (self w) row col = 3 →
    ∃ w', Grid.update_grid w = (Return tt, w') ∧
          cell_at (self w') (row, col) = Some (Cell.mk 1 0).

(** The index a Python list reads for [i]: negative indices count from the
    end of a list of length [len]. *)
Definition wrap_index (len i : Z) : Z := if i <? 0 then i + len else i.

(** [get_cell] raising for every coordinate outside the grid, negative
    indices included. *)
Definition get_cell_as_stated : Prop :=
  ∀ (w : World) (row col : Z),
    well_formed (self w) →
    (¬ in_bounds (self w) row col → Grid.get_cell row col w = (Raise IndexError, w)) ∧
    (in_bounds (self w) row col →
     Grid.get_cell row col w = (Return (ref_of (row, col)), w)).

(** ** [reset], as a function of the grid before the call *)

(** What the body of the loops of [reset] does to a cell. *)
Definition kill (c : Cell.t) : Cell.t :=
  if Cell._value c =? 1 then after Cell.toggle_value c else c.

(** The signals the body of the loops of [reset] emits for the cell [ref] in
    the state [c]: those of [toggle_value] when the cell is alive, none
    otherwise. *)
Definition kill_signals (ref : CellRef) (c : option Cell.t) : list Emission :=
  match c with
  | Some c =>
      if Cell._value c =? 1
      then (λ s, mkEmission ref s.1 s.2) <$> (Cell.toggle_value c).2
      else []
  | None => []
  end.

(** A 1x1 grid whose dead cell was given the duration 5 through [set_time]. *)
Definition dead_with_duration_1x1 : World :=
  world_after (call_cell 0 0 (Cell.set_time 5)) (fresh 1 1).

(** [reset] leaving every cell with the duration 0, whatever the grid. *)
Definition reset_as_stated : Prop :=
  ∀ w : World,
    well_formed (self w) →
    ∃ w', Grid.reset w = (Return tt, w') ∧
          ∀ p c, cell_at (self w') p = Some c → c = Cell.mk 0 0.

(** ** Sequences of calls of the public interface *)

(** The calls a collaborator can make on a grid and on the cells it hands
    out; [op_restore] is the pairing of the restore interface, [set_time]
    followed by [toggle_value] on the same cell. *)
Inductive operation : Type :=
  | op_update_grid
  | op_reset
  | op_toggle_value (row col : Z)
  | op_increase_time (row col : Z)
  | op_set_time (row col value : Z)
  | op_reset_time (row col : Z)
  | op_restore (row col value : Z).

Definition perform (op : operation) : Py unit :=
  match op with
  | op_update_grid => Grid.update_grid
  | op_reset => Grid.reset
  | op_toggle_value row col => call_cell row col Cell.toggle_value
  | op_increase_time row col => call_cell row col Cell.increase_time
  | op_set_time row col value => call_cell row col (Cell.set_time value)
  | op_reset_time row col => call_cell row col Cell.reset_time
  | op_restore row col value =>
      cell ← Grid.get_cell row col;
      invoke cell (Cell.set_time value);;
      invoke cell Cell.toggle_value
  end.

(** The cell [get_cell(row, col)] hands out, if it returns. *)
Definition target (w : World) (row col : Z) : option Cell.t :=
  match (Grid.get_cell row col w).1 with
  | Return ref => deref (self w) ref
  | Raise _ => None
  end.

Definition target_alive (w : World) (row col : Z) : bool :=
  match target w row col with
  | Some c => Cell._value c =? 1
  | None => true
  end.

(** The stated precondition: [increase_time] is called on alive cells only. *)
Definition respects_precondition (w : World) (op : operation) : bool :=
  match op with
  | op_increase_time row col => target_alive w row col
  | _ => true
  end.

(** The calls that keep the Cell invariant: moreover, [set_time] on its own
    is called on an alive cell or with the value 0. *)
Definition permitted (w : World) (op : operation) : bool :=
  match op with
  | op_increase_time row col => target_alive w row col
  | op_set_time row col value => target_alive w row col || (value =? 0)
  | _ => true
  end.

(** The world after a sequence of calls, each allowed in the world it is made
    in; a call that raises leaves the world it had reached, and the sequence
    goes on. *)
Fixpoint run (allowed : World → operation → bool) (ops : list operation)
    (w : World) : option World :=
  match ops with
  | [] => Some w
  | op :: ops' =>
      if allowed w op then run allowed ops' (world_after (perform op) w) else None
  end.

(** The invariant after any sequence of calls, [set_time] on a dead cell
    included. *)
Definition duration_invariant_as_stated : Prop :=
  ∀ (rows cols : Z) (ops : list operation) (w : World),
    run respects_precondition ops (fresh rows cols) = Some w →
    duration_invariant (self w).

(** A cell with a 0/1 value that satisfies the Cell invariant. *)
Definition cell_ok (c : Cell.t) : Prop :=
  (Cell._value c = 0 ∨ Cell._value c = 1) ∧ dead_means_zero c.

(** A well-formed grid whose cells satisfy the Cell invariant. *)
Definition good (g : GridObj) : Prop :=
  well_formed g ∧ duration_invariant g.

(** A sequence of calls on a 2x2 grid, and the world it leaves. *)
Definition example_calls : list operation :=
  [op_toggle_value 0 0; op_toggle_value 0 1; op_restore 1 1 5;
   op_increase_time 0 0; op_set_time 0 1 7; op_set_time 1 0 0;
   op_toggle_value 5 5; op_update_grid; op_reset; op_restore 0 0 3;
   op_restore 0 1 4; op_toggle_value 1 0; op_reset_time 0 0; op_update_grid].

Definition example_world : World :=
  default (fresh 2 2) (run permitted example_calls (fresh 2 2)).

(** ** The blinker *)

(** The set of the alive cells of a grid. *)
Definition alive_set (g : GridObj) : gset (Z * Z) :=
  list_to_set (alive_cells g).

Definition blinker_horizontal : list (Z * Z) := [(1, 1); (1, 2); (1, 3)].
Definition blinker_vertical : list (Z * Z) := [(0, 2); (1, 2); (2, 2)].

(** The values of an unbounded grid whose alive cells are [cells]. *)
Definition indicator (cells : list (Z * Z)) (p : Z * Z) : Z :=
  if bool_decide (p ∈ cells) then 1 else 0.

(** The sum of the values at the eight neighbour positions. *)
Definition neighbor_sum (values : Z * Z → Z) (p : Z * Z) : Z :=
  foldr (λ d n, values (p.1 + d.1, p.2 + d.2) + n) 0 moore_offsets.

(** The value after the call of a cell with the value [v] and [n] alive
    neighbours. *)
Definition next_value (v n : Z) : Z :=
  Cell._value (next_cell (Cell.mk v 0) (fate_of_cell v n)).

(** ** Every call of the public interface *)

(** A computation that only reads: it returns, or raises [IndexError], and in
    both cases leaves the world as it found it. *)
Definition reader {A : Type} (m : Py A) : Prop :=
  ∀ w, (∃ a, m w = (Return a, w)) ∨ m w = (Raise IndexError, w).

(** The calls a collaborator can make, the reading ones included. *)
Inductive call : Type :=
  | on_operation (op : operation)
  | call_set_sleep (fps : PyFloat.number)
  | call_get_sleep
  | call_get_dimensions
  | call_get_cell (row col : Z)
  | call_get_value (row col : Z)
  | call_get_time (row col : Z)
  | call_alive_neighbors (row col : Z).

(** The world a call leaves, whether it returns or raises. *)
Definition world_after_call (c : call) (w : World) : World :=
  match c with
  | on_operation op => world_after (perform op) w
  | call_set_sleep fps => world_after (Grid.set_sleep fps) w
  | call_get_sleep => world_after Grid.get_sleep w
  | call_get_dimensions => world_after Grid.get_dimensions w
  | call_get_cell row col => world_after (Grid.get_cell row col) w
  | call_get_value row col => world_after (call_cell row col Cell.get_value) w
  | call_get_time row col => world_after (call_cell row col Cell.get_time) w
  | call_alive_neighbors row col => world_after (Grid.alive_neighbors row col) w
  end.

(** The world after a sequence of calls, made in any state and with any
    arguments. *)
Definition run_calls (cs : list call) (w : World) : World :=
  foldl (λ w c, world_after_call c w) w cs.

(** A sequence of calls of every kind, some of them raising. *)
Definition assorted_calls : list call :=
  [on_operation (op_toggle_value 0 0); on_operation (op_set_time 1 1 9);
   on_operation (op_increase_time 1 0); call_set_sleep (PyFloat.Int 10);
   call_alive_neighbors (-1) 7; on_operation op_update_grid;
   call_set_sleep (PyFloat.Int 0); call_get_cell 3 3;
   on_operation (op_restore (-1) (-1) 4); on_operation op_update_grid;
   call_get_value 0 1; on_operation op_reset; call_get_dimensions].

(** A world whose grid is well formed and has the given dimensions. *)
Definition shaped_as (rows cols : Z) (w : World) : Prop :=
  well_formed (self w) ∧ _rows (self w) = rows ∧ _cols (self w) = cols.

(** The tick interval a sequence of calls leaves, starting from [interval]:
    the one of its last [set_sleep] that returned. *)
Definition last_interval (cs : list call) (interval : PyFloat.t) : PyFloat.t :=
  foldl (λ interval c,
           match c with
           | call_set_sleep fps =>
               match PyFloat.one_over fps with
               | Return x => PyFloat.round3 x
               | Raise _ => interval
               end
           | _ => interval
           end) interval cs.

(** ** Counting on a grid whose cells are all alive *)

(** How many of [x - 1], [x], [x + 1] are indices of a list of length [n],
    for an index [x] of the list. *)
Definition span (x n : Z) : Z :=
  1 + (if 0 <? x then 1 else 0) + (if x <? n - 1 then 1 else 0).

(** A 3x4 grid whose cells are all alive. *)
Definition all_alive_3x4 : World :=
  world_after (for_each (all_coords (Grid.init 3 4))
                        (λ p, call_cell p.1 p.2 Cell.toggle_value))
              (fresh 3 4).

(** ** The signals of one generation *)

(** The signals a method call emits for the cell [ref] in the state [c]. *)
Definition method_signals (m : Cell.method unit) (ref : CellRef)
    (c : option Cell.t) : list Emission :=
  match c with
  | Some c => (λ s, mkEmission ref s.1 s.2) <$> (m c).2
  | None => []
  end.

(** The alive time at a coordinate. *)
Definition time_at (g : GridObj) (p : Z * Z) : Z :=
  match cell_at g p with Some c => Cell._alive_time c | None => 0 end.

(** The signals of one call of [update_grid] on the grid [g]: the born
    cells with their alive time, the surviving ones with their alive time
    plus one, the dying ones as (0, 0); each list row by row. *)
Definition signals_of (g : GridObj) : list Emission :=
  ((λ p, mkEmission (ref_of p) 1 (time_at g p)) <$> birth (changes_of g)) ++
  ((λ p, mkEmission (ref_of p) 1 (time_at g p + 1)) <$> survival (changes_of g)) ++
  ((λ p, mkEmission (ref_of p) 0 0) <$> death (changes_of g)).

(** A signal an observer can trust: a 0/1 value, and the alive time 0 with
    the value 0. *)
Definition signal_ok (e : Emission) : Prop :=
  (em_value e = 0 ∨ em_value e = 1) ∧ (em_value e = 0 → em_time e = 0).

(** A sequence of calls that respects the precondition of [increase_time]
    and gives dead cells a duration through [set_time], and the world it
    leaves. *)
Definition careless_calls : list operation :=
  [op_set_time 0 0 5; op_toggle_value 0 1; op_toggle_value 1 0;
   op_set_time 1 1 8; op_toggle_value 1 1; op_update_grid;
   op_increase_time 0 1; op_set_time 0 1 2; op_update_grid;
   op_toggle_value 0 0; op_set_time 0 0 3; op_reset; op_update_grid].

Definition careless_world : World :=
  default (fresh 2 2) (run respects_precondition careless_calls (fresh 2 2)).

(** ** The simulation loop *)

(** The two events of the module [events], as one read of [is_set()] finds
    them; other threads set and clear them between the reads. *)
Record Flags : Type := mkFlags {
  game_event : bool;
  window_event : bool
}.

(** What the loop does, in order: a call of [update_grid] or a call of
    [sleep] with its argument. *)
Inductive action : Type :=
  | Updated
  | Slept (seconds : PyFloat.t).

(** How the loop stands when the reads it is given are used up. *)
Inductive loop_end : Type :=
  | Stopped
  | Failed (e : exn)
  | Rejected (seconds : PyFloat.t)
  | Pending.

Section StateLoop.

(** The arguments [time.sleep] accepts; it raises on the others. *)
Variable sleep_accepts : PyFloat.t → bool.

(** [state_loop], run over the successive reads of the events, one element of
    [reads] for each call of [is_set()].  With [inner = false] the run starts
    at the test of the outer [while], with [inner = true] at the test of the
    inner one, whose [and] reads [window_event] only when [game_event] is set.
    The run gives how the loop ends ([Stopped]: it returned; [Failed]:
    [update_grid] raised; [Rejected]: [sleep] raised; [Pending]: it is still
    running when the reads are used up), the world and what it did. *)
Fixpoint state_loop_from (inner : bool) (reads : list Flags) (w : World)
    : loop_end * World * list action :=
  match reads with
  | [] => (Pending, w, [])
  | r :: reads' =>
      if inner then
        if game_event r then
          match reads' with
          | [] => (Pending, w, [])
          | r' :: reads'' =>
              if window_event r' then
                match Grid.update_grid w with
                | (Raise e, w') => (Failed e, w', [])
                | (Return _, w') =>
                    if sleep_accepts (_sleep (self w')) then
                      let '(e, w'', did) := state_loop_from true reads'' w' in
                      (e, w'', Updated :: Slept (_sleep (self w')) :: did)
                    else (Rejected (_sleep (self w')), w', [Updated])
                end
              else if sleep_accepts PyFloat.lit_0_1 then
                let '(e, w', did) := state_loop_from false reads'' w in
                (e, w', Slept PyFloat.lit_0_1 :: did)
              else (Rejected PyFloat.lit_0_1, w, [])
          end
        else if sleep_accepts PyFloat.lit_0_1 then
          let '(e, w', did) := state_loop_from false reads' w in
          (e, w', Slept PyFloat.lit_0_1 :: did)
        else (Rejected PyFloat.lit_0_1, w, [])
      else
        if window_event r then state_loop_from true reads' w
        else (Stopped, w, [])
  end.

Definition state_loop (reads : list Flags) (w : World)
    : loop_end * World * list action :=
  state_loop_from false reads w.

End StateLoop.

Definition is_update (a : action) : bool :=
  match a with Updated => true | Slept _ => false end.

(** The number of calls of [update_grid] among the actions. *)
Definition updates (did : list action) : nat :=
  length (filter (λ a, is_update a) did).

(** Actions paced by the interval [seconds]: each call of [update_grid] is
    followed at once by [sleep(seconds)], and every other sleep is
    [sleep(0.1)]. *)
Fixpoint paced (seconds : PyFloat.t) (did : list action) : Prop :=
  match did with
  | [] => True
  | Updated :: Slept s :: did' => s = seconds ∧ paced seconds did'
  | Slept s :: did' => s = PyFloat.lit_0_1 ∧ paced seconds did'
  | Updated :: _ => False
  end.

(** [time.sleep] of a float: it takes the floats from zero up, [-0.0]
    among them, whose nanoseconds [x * 1e9], a float product, are below
    [2^63]; it raises on the others: a negative float, NaN, an infinity, a
    float too large for its clock.  [1e9] is [8388608000000000 * 2^-23]. *)
Definition time_sleep_accepts (x : PyFloat.t) : bool :=
  SFleb (S754_zero false) x &&
  SFltb (SFmul PyFloat.prec PyFloat.emax x
           (S754_finite false 8388608000000000 (-23)))
        (S754_finite false 4503599627370496 11).

(** Reads of a run: the window is there, the game is paused, then started for
    two generations, then the window is closed. *)
Definition example_reads : list Flags :=
  [mkFlags false true; mkFlags false true; mkFlags false true;
   mkFlags true true; mkFlags true true; mkFlags true true;
   mkFlags true true; mkFlags true true; mkFlags true false;
   mkFlags true false].

(** Reads that find the game paused, whatever the window. *)
Definition paused_reads : list Flags :=
  [mkFlags false true; mkFlags false true; mkFlags false true;
   mkFlags false true; mkFlags false true; mkFlags false false].

(** Reads that find the window closed, whatever the game. *)
Definition closed_reads : list Flags :=
  [mkFlags true false; mkFlags true false; mkFlags false false].

(** ** Several generations *)

(** The world after [n] calls of [update_grid]. *)
Definition generation (n : nat) (w : World) : World :=
  Nat.iter n (world_after Grid.update_grid) w.

(** The rule of the game at a coordinate: alive next with 3 alive neighbours,
    or alive now with 2. *)
Definition conway_alive (g : GridObj) (p : Z * Z) : bool :=
  (moore_count g p.1 p.2 =? 3) || (is_alive g p && (moore_count g p.1 p.2 =? 2)).

(** A still life: the rule leaves every cell of the grid as it is. *)
Definition still (g : GridObj) : Prop :=
  Forall (λ p, conway_alive g p = is_alive g p) (all_coords g).

#[global] Instance still_dec g : Decision (still g).
Proof. unfold still. apply _. Defined.

(** A 4x4 grid with the block (1,1), (1,2), (2,1), (2,2) alive, one of its
    cells restored with the duration 7. *)
Definition block_4x4 : World :=
  world_after (call_cell 1 1 Cell.toggle_value;;
               call_cell 1 2 Cell.toggle_value;;
               call_cell 2 1 Cell.toggle_value;;
               perform (op_restore 2 2 7))
              (fresh 4 4).

(** ** What an observer receives *)

(** [cell_changed] is declared [pyqtSignal(int, int)]: an observer receives
    two C ints.  A Python int in [-2^31, 2^31) arrives as it was passed to
    [emit]; one outside this range does not. *)
Definition fits_c_int (v : Z) : Prop := - 2 ^ 31 ≤ v < 2 ^ 31.

#[global] Instance fits_c_int_dec v : Decision (fits_c_int v).
Proof. unfold fits_c_int. apply _. Defined.

(** A signal whose two arguments arrive as they were emitted. *)
Definition arrives_as_emitted (e : Emission) : Prop :=
  fits_c_int (em_value e) ∧ fits_c_int (em_time e).

(** Every alive time of the grid fits a C int, and so does the alive time
    plus one, which a surviving cell emits. *)
Definition times_fit (g : GridObj) : Prop :=
  Forall (Forall (λ c, fits_c_int (Cell._alive_time c) ∧
                       fits_c_int (Cell._alive_time c + 1)))
         (_cells g).

#[global] Instance times_fit_dec g : Decision (times_fit g).
Proof. unfold times_fit. apply _. Defined.

(** ** Tactics *)

(** Decides the membership test [E : _ ∈ _ ↔ _] wherever the goal branches
    on it. *)
Ltac settle_bucket E :=
  match type of E with
  | ?P ↔ _ =>
      first [ rewrite (decide_True (P := P)) by (apply E; done)
            | rewrite (decide_False (P := P)) by (intros [? _]%E; done) ]
  end.

(** Closed facts about concrete grids are settled by evaluation. *)
Ltac by_evaluation :=
  lazymatch goal with
  | |- well_formed _ => apply (bool_decide_unpack _); vm_compute; exact I
  | |- duration_invariant _ => apply (bool_decide_unpack _); vm_compute; exact I
  | |- in_bounds _ _ _ => unfold in_bounds; simpl; lia
  | |- fits_c_int _ => apply (bool_decide_unpack _); vm_compute; exact I
  | |- times_fit _ => apply (bool_decide_unpack _); vm_compute; exact I
  | |- _ => vm_compute; reflexivity
  end.

(** Splits the plane into the window around the blinker, one goal for each
    of its positions, and the four half planes around it. *)
Ltac blinker_window row col :=
  let H := fresh "Hwindow" in
  assert ((row ≤ -2 ∨ 4 ≤ row ∨ col ≤ -1 ∨ 5 ≤ col) ∨
          ((row = -1 ∨ row = 0 ∨ row = 1 ∨ row = 2 ∨ row = 3) ∧
           (col = 0 ∨ col = 1 ∨ col = 2 ∨ col = 3 ∨ col = 4))) as H by lia;
  destruct H as [H|[H1 H2]];
  [|destruct H1 as [->|[->|[->|[->| ->]]]];
    destruct H2 as [->|[->|[->|[->| ->]]]]; vm_compute; reflexivity].
(** ** Running computations *)

Section Monad.
Context {A B : Type}.

Lemma bind_return (m : Py A) (f : A → Py B) w a w' :
  m w = (Return a, w') → (m ≫= f) w = f a w'.
Proof. intros H. unfold mbind, Py_bind. by rewrite H. Qed.

Lemma bind_raise (m : Py A) (f : A → Py B) w e w' :
  m w = (Raise e, w') → (m ≫= f) w = (Raise e, w').
Proof. intros H. unfold mbind, Py_bind. by rewrite H. Qed.

Lemma ret_run (a : A) w : (mret a : Py A) w = (Return a, w).
Proof. done. Qed.
End Monad.

(** A loop whose body reads only: the world is the one before the loop and
    the local variable is folded over the sequence. *)
Lemma for_fold_pure {A S : Type} (body : S → A → Py S) (f : S → A → S) w xs :
  (∀ acc x, x ∈ xs → body acc x w = (Return (f acc x), w)) →
  ∀ acc, for_fold xs acc body w = (Return (foldl f acc xs), w).
Proof.
  induction xs as [|x xs IH]; intros Hbody acc; simpl; [done|].
  rewrite (bind_return _ _ w (f acc x) w).
  - apply IH. intros acc' y Hy. apply Hbody. by right.
  - apply Hbody. by left.
Qed.

(** A loop whose body does nothing leaves the world as it is. *)
Lemma for_each_skip {A : Type} (body : A → Py unit) w xs :
  (∀ x, x ∈ xs → body x w = (Return tt, w)) →
  for_each xs body w = (Return tt, w).
Proof.
  induction xs as [|x xs IH]; intros Hbody; simpl; [done|].
  rewrite (bind_return _ _ w tt w).
  - apply IH. intros y Hy. apply Hbody. by right.
  - apply Hbody. by left.
Qed.

(** ** Indexing *)

Lemma py_norm_index_in len i :
  0 ≤ i < Z.of_nat len → py_norm_index len i = Some (Z.to_nat i).
Proof.
  intros H. unfold py_norm_index.
  destruct (Z.leb_spec 0 i), (Z.ltb_spec i (Z.of_nat len)); simpl; auto; lia.
Qed.

Lemma py_norm_index_neg len i :
  - Z.of_nat len ≤ i < 0 → py_norm_index len i = Some (Z.to_nat (i + Z.of_nat len)).
Proof.
  intros H. unfold py_norm_index.
  destruct (Z.leb_spec 0 i); simpl; [lia|].
  destruct (Z.leb_spec (- Z.of_nat len) i), (Z.ltb_spec i 0); simpl; auto; lia.
Qed.

Lemma py_norm_index_out len i :
  i < - Z.of_nat len ∨ Z.of_nat len ≤ i → py_norm_index len i = None.
Proof.
  intros H. unfold py_norm_index.
  destruct (Z.leb_spec 0 i), (Z.ltb_spec i (Z.of_nat len)),
    (Z.leb_spec (- Z.of_nat len) i), (Z.ltb_spec i 0); simpl; auto; lia.
Qed.

Lemma py_norm_index_lt len i n :
  py_norm_index len i = Some n → (n < len)%nat.
Proof.
  unfold py_norm_index.
  destruct (Z.leb_spec 0 i), (Z.ltb_spec i (Z.of_nat len)),
    (Z.leb_spec (- Z.of_nat len) i), (Z.ltb_spec i 0); simpl;
    intros [= <-]; lia.
Qed.

Lemma elem_of_py_range lo hi k : k ∈ py_range lo hi ↔ lo ≤ k < hi.
Proof.
  unfold py_range. rewrite list_elem_of_fmap. split.
  - intros (n & -> & Hn). apply elem_of_seq in Hn. lia.
  - intros H. exists (Z.to_nat (k - lo)). split; [lia|].
    apply elem_of_seq. lia.
Qed.

Lemma NoDup_py_range lo hi : NoDup (py_range lo hi).
Proof.
  unfold py_range. apply NoDup_fmap_2; [|apply NoDup_seq].
  intros a b H. lia.
Qed.

(** ** Cell objects in the grid *)

Lemma in_boundsb_spec g p : in_boundsb g p = true ↔ in_bounds g p.1 p.2.
Proof. unfold in_boundsb, in_bounds. rewrite !andb_true_iff. lia. Qed.

Lemma in_boundsb_false g p : in_boundsb g p = false ↔ ¬ in_bounds g p.1 p.2.
Proof. rewrite <- in_boundsb_spec. by destruct (in_boundsb g p). Qed.

Lemma well_shaped_row g i cells_row :
  well_shaped g → _cells g !! i = Some cells_row →
  length cells_row = Z.to_nat (_cols g).
Proof. intros [_ H] Hi. by eapply (proj1 (Forall_lookup _ _) H). Qed.

Lemma deref_Some g ref c :
  deref g ref = Some c ↔
  ∃ cells_row, _cells g !! ref.1 = Some cells_row ∧ cells_row !! ref.2 = Some c.
Proof.
  unfold deref. destruct (_cells g !! ref.1) as [cells_row|]; simpl.
  - split; [eauto|]. by intros (? & [= <-] & ?).
  - split; [done|]. by intros (? & ? & ?).
Qed.

Lemma deref_in_range g ref c :
  well_shaped g → deref g ref = Some c →
  (ref.1 < Z.to_nat (_rows g))%nat ∧ (ref.2 < Z.to_nat (_cols g))%nat.
Proof.
  intros Hg (cells_row & Hi & Hj)%deref_Some.
  pose proof (well_shaped_row _ _ _ Hg Hi) as Hlen.
  apply lookup_lt_Some in Hj. apply lookup_lt_Some in Hi.
  destruct Hg as [Hrows _]. lia.
Qed.

Lemma deref_in_bounds g p :
  well_shaped g → in_bounds g p.1 p.2 → is_Some (deref g (ref_of p)).
Proof.
  intros Hg [Hr Hc]. unfold deref, ref_of; simpl.
  destruct (lookup_lt_is_Some_2 (_cells g) (Z.to_nat p.1)) as [cells_row Hi].
  { destruct Hg as [-> _]. lia. }
  rewrite Hi; simpl. apply lookup_lt_is_Some_2.
  rewrite (well_shaped_row _ _ _ Hg Hi). lia.
Qed.

Lemma cell_at_in_bounds g p :
  in_bounds g p.1 p.2 → cell_at g p = deref g (ref_of p).
Proof. intros H%in_boundsb_spec. unfold cell_at. by rewrite H. Qed.

Lemma cell_at_outside g p : ¬ in_bounds g p.1 p.2 → cell_at g p = None.
Proof. intros H%in_boundsb_false. unfold cell_at. by rewrite H. Qed.

Lemma cell_at_Some g p c :
  cell_at g p = Some c → in_bounds g p.1 p.2 ∧ deref g (ref_of p) = Some c.
Proof.
  unfold cell_at. destruct (in_boundsb g p) eqn:Hb; [|done].
  apply in_boundsb_spec in Hb. done.
Qed.

Lemma cell_at_is_Some g p :
  well_shaped g → in_bounds g p.1 p.2 → is_Some (cell_at g p).
Proof.
  intros Hg Hp. rewrite cell_at_in_bounds by done. by apply deref_in_bounds.
Qed.

Lemma binary_valued_deref g ref c :
  binary_valued g → deref g ref = Some c →
  Cell._value c = 0 ∨ Cell._value c = 1.
Proof.
  intros Hg (cells_row & Hi & Hj)%deref_Some.
  pose proof (proj1 (Forall_lookup _ _) Hg _ _ Hi) as Hrow.
  exact (proj1 (Forall_lookup _ _) Hrow _ _ Hj).
Qed.

Lemma alive_at_binary g p :
  binary_valued g → alive_at g p = 0 ∨ alive_at g p = 1.
Proof.
  intros Hg. unfold alive_at. destruct (cell_at g p) as [c|] eqn:Hc; [|by left].
  apply cell_at_Some in Hc as [_ Hc]. by eapply binary_valued_deref.
Qed.

Lemma store_rows ref c g : _rows (store ref c g) = _rows g.
Proof. done. Qed.
Lemma store_cols ref c g : _cols (store ref c g) = _cols g.
Proof. done. Qed.
Lemma store_sleep ref c g : _sleep (store ref c g) = _sleep g.
Proof. done. Qed.

Lemma deref_store_eq g ref c c0 :
  deref g ref = Some c0 → deref (store ref c g) ref = Some c.
Proof.
  intros (cells_row & Hi & Hj)%deref_Some. unfold deref, store; simpl.
  rewrite list_lookup_alter_eq, Hi; simpl.
  apply list_lookup_insert_eq. by eapply lookup_lt_Some.
Qed.

Lemma deref_store_ne g ref ref' c :
  ref ≠ ref' → deref (store ref c g) ref' = deref g ref'.
Proof.
  intros Hne. unfold deref, store; simpl.
  destruct (decide (ref.1 = ref'.1)) as [Heq|Hne1].
  - rewrite <- Heq, list_lookup_alter_eq.
    destruct (_cells g !! ref.1) as [cells_row|]; simpl; [|done].
    apply list_lookup_insert_ne. intros Heq2. apply Hne.
    destruct ref, ref'; simpl in *; congruence.
  - by rewrite list_lookup_alter_ne.
Qed.

Lemma store_id g ref c : deref g ref = Some c → store ref c g = g.
Proof.
  intros (cells_row & Hi & Hj)%deref_Some. unfold store, set_cells.
  destruct g as [rows cols cells sl]; simpl in *. f_equal.
  apply list_eq. intros i. destruct (decide (i = ref.1)) as [->|Hne].
  - rewrite list_lookup_alter_eq, Hi; simpl. f_equal. by apply list_insert_id.
  - by rewrite list_lookup_alter_ne.
Qed.

Lemma store_well_shaped g ref c : well_shaped g → well_shaped (store ref c g).
Proof.
  intros [Hrows Hcols]. split; simpl.
  - by rewrite length_alter.
  - apply Forall_lookup. intros i cells_row Hi.
    destruct (decide (i = ref.1)) as [->|Hne].
    + rewrite list_lookup_alter_eq in Hi.
      destruct (_cells g !! ref.1) as [cells_row0|] eqn:H0; simplify_eq/=.
      rewrite length_insert. by eapply (proj1 (Forall_lookup _ _) Hcols).
    + rewrite list_lookup_alter_ne in Hi by done.
      by eapply (proj1 (Forall_lookup _ _) Hcols).
Qed.

Lemma binary_valued_pointwise g :
  binary_valued g ↔
  ∀ ref c, deref g ref = Some c → Cell._value c = 0 ∨ Cell._value c = 1.
Proof.
  split; [intros H ref c; by apply binary_valued_deref|].
  intros H. apply Forall_lookup. intros i cells_row Hi.
  apply Forall_lookup. intros j c Hj.
  apply (H (i, j)). apply deref_Some. eauto.
Qed.

Lemma duration_invariant_pointwise g :
  duration_invariant g ↔
  ∀ ref c, deref g ref = Some c → dead_means_zero c.
Proof.
  split.
  - intros Hg ref c (cells_row & Hi & Hj)%deref_Some.
    pose proof (proj1 (Forall_lookup _ _) Hg _ _ Hi) as Hrow.
    exact (proj1 (Forall_lookup _ _) Hrow _ _ Hj).
  - intros H. apply Forall_lookup. intros i cells_row Hi.
    apply Forall_lookup. intros j c Hj.
    apply (H (i, j)). apply deref_Some. eauto.
Qed.

Lemma subscript_in_bounds w row col :
  well_shaped (self w) → in_bounds (self w) row col →
  subscript row col w = (Return (ref_of (row, col)), w).
Proof.
  intros Hg [Hr Hc]. unfold subscript.
  rewrite py_norm_index_in by (destruct Hg as [-> _]; lia).
  destruct (lookup_lt_is_Some_2 (_cells (self w)) (Z.to_nat row)) as [cells_row Hi].
  { destruct Hg as [-> _]. lia. }
  rewrite Hi, py_norm_index_in; [done|].
  rewrite (well_shaped_row _ _ _ Hg Hi). lia.
Qed.

Lemma invoke_run {A : Type} (m : Cell.method A) ref c w :
  deref (self w) ref = Some c →
  invoke ref m w =
    (Return (m c).1.1,
     mkWorld (store ref (m c).1.2 (self w))
             (emitted w ++ ((λ s, mkEmission ref s.1 s.2) <$> (m c).2))).
Proof. intros H. unfold invoke. rewrite H. by destruct (m c) as [[a c'] s]. Qed.

(** [get_value] leaves the world as it is. *)
Lemma invoke_get_value ref c w :
  deref (self w) ref = Some c →
  invoke ref Cell.get_value w = (Return (Cell._value c), w).
Proof.
  intros H. rewrite (invoke_run _ _ c) by done. simpl.
  rewrite store_id, app_nil_r by done. by destruct w.
Qed.

(** ** Counting neighbours *)

Lemma alive_at_outside g p : ¬ in_bounds g p.1 p.2 → alive_at g p = 0.
Proof. intros H. unfold alive_at. by rewrite cell_at_outside. Qed.

Lemma add_value_run w count row col :
  well_shaped (self w) → in_bounds (self w) row col →
  Grid.add_value count row col w = (Return (count + alive_at (self w) (row, col)), w).
Proof.
  intros Hg Hp. unfold Grid.add_value.
  rewrite (bind_return _ _ _ _ _ (subscript_in_bounds _ _ _ Hg Hp)).
  destruct (deref_in_bounds (self w) (row, col) Hg Hp) as [c Hc].
  rewrite (bind_return _ _ _ _ _ (invoke_get_value _ _ _ Hc)).
  unfold alive_at. rewrite cell_at_in_bounds, Hc by done. done.
Qed.

Lemma add_left_right_run w count row col :
  well_shaped (self w) → in_bounds (self w) row col →
  Grid.add_left_right count row col w =
    (Return (count + alive_at (self w) (row, col - 1)
                   + alive_at (self w) (row, col + 1)), w).
Proof.
  intros Hg [Hr Hc]. unfold Grid.add_left_right.
  assert (Hleft : (if 0 <? col then Grid.add_value count row (col - 1)
                   else mret count) w
                  = (Return (count + alive_at (self w) (row, col - 1)), w)).
  { destruct (Z.ltb_spec 0 col).
    - apply add_value_run; [done|]. split; simpl; lia.
    - rewrite alive_at_outside by (unfold in_bounds; simpl; lia).
      by rewrite Z.add_0_r. }
  rewrite (bind_return _ _ _ _ _ Hleft).
  rewrite (bind_return _ _ w (_cols (self w)) w) by done.
  destruct (Z.ltb_spec col (_cols (self w) - 1)).
  - apply add_value_run; [done|]. split; simpl; lia.
  - rewrite (alive_at_outside _ (row, col + 1)) by (unfold in_bounds; simpl; lia).
    by rewrite Z.add_0_r.
Qed.

(** The sum of the values at the eight neighbour positions, a position
    outside the grid counting for 0. *)
Lemma alive_neighbors_sum w row col :
  well_shaped (self w) → in_bounds (self w) row col →
  Grid.alive_neighbors row col w =
    (Return (foldr (λ d n, alive_at (self w) (row + d.1, col + d.2) + n) 0
                   moore_offsets), w).
Proof.
  intros Hg [Hr Hc]. unfold Grid.alive_neighbors. set (g := self w) in *.
  assert (Hup : ∀ r, r = row - 1 ∨ r = row + 1 → ∀ (cond : bool),
            (cond = true ↔ 0 ≤ r < _rows g) →
            (if cond then count ← Grid.add_value 0 r col;
                          Grid.add_left_right count r col
             else mret 0) w
            = (Return (alive_at g (r, col) + alive_at g (r, col - 1)
                       + alive_at g (r, col + 1)), w)).
  { intros r Hrr cond Hcond. destruct cond.
    - assert (in_bounds g r col) as Hp by (split; [by apply Hcond|done]).
      rewrite (bind_return _ _ _ _ _ (add_value_run w 0 r col Hg Hp)).
      by rewrite add_left_right_run.
    - assert (¬ 0 ≤ r < _rows g) as Hn by (intros H; apply Hcond in H; done).
      rewrite !alive_at_outside by (unfold in_bounds; simpl; lia). done. }
  rewrite (bind_return _ _ _ _ _ (Hup (row - 1) (or_introl eq_refl) (0 <? row)
             ltac:(rewrite Z.ltb_lt; lia))).
  rewrite (bind_return _ _ w (_rows g) w) by done.
  match goal with |- (?m ≫= _) _ = _ =>
    assert (m w = (Return (alive_at g (row - 1, col) + alive_at g (row - 1, col - 1)
                           + alive_at g (row - 1, col + 1)
                           + (alive_at g (row + 1, col) + alive_at g (row + 1, col - 1)
                              + alive_at g (row + 1, col + 1))), w)) as Hdown
  end.
  { destruct (Z.ltb_spec row (_rows g - 1)).
    - assert (in_bounds g (row + 1) col) as Hp by (split; lia).
      rewrite (bind_return _ _ _ _ _ (add_value_run w _ (row + 1) col Hg Hp)).
      rewrite add_left_right_run by done. do 2 f_equal. fold g. lia.
    - rewrite !(alive_at_outside _ (row + 1, _)) by (unfold in_bounds; simpl; lia).
      rewrite ret_run. do 2 f_equal. lia. }
  rewrite (bind_return _ _ _ _ _ Hdown).
  rewrite add_left_right_run by done. fold g. simpl.
  do 2 f_equal. rewrite !Z.add_0_r. replace (row + 0) with row by lia.
  replace (col + -1) with (col - 1) by lia.
  replace (row + -1) with (row - 1) by lia.
  replace (col + 0) with col by lia. lia.
Qed.

(** Summing 0/1 values is counting the alive cells in the grid. *)
Lemma sum_alive_at_count g (ps : list (Z * Z)) :
  binary_valued g →
  foldr (λ p n, alive_at g p + n) 0 ps =
  Z.of_nat (length (filter (λ p, is_alive g p)
                           (filter (λ p, in_boundsb g p) ps))).
Proof.
  intros Hg. induction ps as [|p ps IH]; simpl; [done|].
  rewrite IH. rewrite filter_cons.
  destruct (decide (in_boundsb g p)) as [Hb|Hb].
  - rewrite filter_cons.
    destruct (alive_at_binary g p Hg) as [Ha|Ha]; rewrite Ha;
      destruct (decide (is_alive g p)) as [Hd|Hd];
      unfold is_alive in Hd; rewrite Ha in Hd; simpl in Hd; try done.
    simpl length. rewrite Nat2Z.inj_succ. lia.
  - rewrite alive_at_outside; [done|].
    apply in_boundsb_false. by destruct (in_boundsb g p).
Qed.

Lemma moore_count_sum g row col :
  binary_valued g →
  foldr (λ d n, alive_at g (row + d.1, col + d.2) + n) 0 moore_offsets =
  moore_count g row col.
Proof.
  intros Hg. unfold moore_count, neighbors.
  rewrite <- sum_alive_at_count by done.
  generalize moore_offsets. intros ds.
  induction ds as [|d ds IH]; simpl; [done|]. by rewrite IH.
Qed.

Lemma alive_neighbors_run w row col :
  well_formed (self w) → in_bounds (self w) row col →
  Grid.alive_neighbors row col w = (Return (moore_count (self w) row col), w).
Proof.
  intros [Hs Hb] Hp. rewrite alive_neighbors_sum by done.
  by rewrite moore_count_sum.
Qed.

Lemma neighbors_length g row col : (length (neighbors g row col) ≤ 8)%nat.
Proof.
  unfold neighbors.
  etransitivity; [apply length_filter|]. by rewrite length_fmap.
Qed.

Lemma moore_count_bounds g row col : 0 ≤ moore_count g row col ≤ 8.
Proof.
  unfold moore_count. pose proof (neighbors_length g row col).
  pose proof (length_filter (λ p, is_alive g p) (neighbors g row col)). lia.
Qed.

(** ** The first phase of [update_grid] *)

Lemma elem_of_all_coords g p : p ∈ all_coords g ↔ in_bounds g p.1 p.2.
Proof.
  unfold all_coords, in_bounds. rewrite list_elem_of_bind. split.
  - intros (row & Hp & Hrow). apply list_elem_of_fmap in Hp as (col & -> & Hcol).
    apply elem_of_py_range in Hrow, Hcol. simpl. lia.
  - intros [Hr Hc]. exists p.1. split; [|apply elem_of_py_range; lia].
    apply list_elem_of_fmap. exists p.2. split; [by destruct p|].
    apply elem_of_py_range; lia.
Qed.

Lemma NoDup_all_coords g : NoDup (all_coords g).
Proof.
  unfold all_coords. apply NoDup_bind.
  - intros row1 row2 p _ _ Hp1 Hp2.
    apply list_elem_of_fmap in Hp1 as (c1 & -> & _).
    apply list_elem_of_fmap in Hp2 as (c2 & [= -> _] & _). done.
  - intros row _. apply NoDup_fmap_2; [|apply NoDup_py_range].
    intros c1 c2 [= ->]. done.
  - apply NoDup_py_range.
Qed.

Lemma classify_run w changes row col :
  well_formed (self w) → in_bounds (self w) row col →
  Grid.classify changes row col w = (Return (file_change (self w) changes (row, col)), w).
Proof.
  intros Hg Hp. pose proof Hg as [Hs Hb]. unfold Grid.classify.
  rewrite (bind_return _ _ _ _ _ (alive_neighbors_run _ _ _ Hg Hp)).
  rewrite (bind_return _ _ _ _ _ (subscript_in_bounds _ _ _ Hs Hp)).
  destruct (deref_in_bounds (self w) (row, col) Hs Hp) as [c Hc].
  rewrite (bind_return _ _ _ _ _ (invoke_get_value _ _ _ Hc)).
  unfold file_change, fate_of, fate_of_cell, alive_at.
  rewrite cell_at_in_bounds, Hc by done. simpl.
  destruct (py_truthy (Cell._value c)) eqn:Hv.
  - by destruct ((moore_count (self w) row col =? 2)
                 || (moore_count (self w) row col =? 3)).
  - rewrite (bind_return _ _ _ _ _ (subscript_in_bounds _ _ _ Hs Hp)).
    rewrite (bind_return _ _ _ _ _ (invoke_get_value _ _ _ Hc)).
    rewrite Hv. simpl. by destruct (moore_count (self w) row col =? 3).
Qed.

Lemma foldl_file_change g ps changes :
  foldl (file_change g) changes ps =
  mkChanges (birth changes ++ filter (λ p, fate_of g p = Born) ps)
            (survival changes ++ filter (λ p, fate_of g p = Survives) ps)
            (death changes ++ filter (λ p, fate_of g p = Dies) ps).
Proof.
  revert changes. induction ps as [|p ps IH]; intros changes; simpl.
  - rewrite !filter_nil, !app_nil_r. by destruct changes.
  - rewrite IH, !filter_cons. unfold file_change.
    destruct (fate_of g p); simpl;
      repeat case_decide; try done; by rewrite <- ?app_assoc.
Qed.

Lemma foldl_bind_list {A B C : Type} (f : A → C → A) (k : B → list C) xs a :
  foldl f a (xs ≫= k) = foldl (λ a x, foldl f a (k x)) a xs.
Proof.
  revert a. induction xs as [|x xs IH]; intros a; simpl; [done|].
  by rewrite foldl_app, IH.
Qed.

(** The first phase reads the grid of before the call and changes nothing. *)
Lemma compute_changes_run w :
  well_formed (self w) →
  Grid.compute_changes w = (Return (changes_of (self w)), w).
Proof.
  intros Hg. unfold Grid.compute_changes.
  rewrite (bind_return _ _ w (_rows (self w)) w) by done.
  rewrite (for_fold_pure _
    (λ changes row, foldl (λ changes col, file_change (self w) changes (row, col))
                          changes (py_range 0 (_cols (self w))))).
  - f_equal. f_equal. unfold changes_of.
    transitivity (foldl (file_change (self w)) (mkChanges [] [] [])
                        (all_coords (self w)));
      [|by rewrite foldl_file_change].
    unfold all_coords. rewrite foldl_bind_list.
    generalize (mkChanges [] [] []).
    induction (py_range 0 (_rows (self w))) as [|row rows IH];
      intros changes; simpl; [done|].
    by rewrite foldl_fmap, IH.
  - intros changes row Hrow%elem_of_py_range.
    rewrite (bind_return _ _ w (_cols (self w)) w) by done.
    apply for_fold_pure. intros changes' col Hcol%elem_of_py_range.
    apply classify_run; [done|]. split; lia.
Qed.

(** ** The second phase of [update_grid] *)

Lemma modify_rows ref f g : _rows (modify ref f g) = _rows g.
Proof. unfold modify. by destruct (deref g ref). Qed.
Lemma modify_cols ref f g : _cols (modify ref f g) = _cols g.
Proof. unfold modify. by destruct (deref g ref). Qed.
Lemma modify_sleep ref f g : _sleep (modify ref f g) = _sleep g.
Proof. unfold modify. by destruct (deref g ref). Qed.

Lemma modify_well_shaped ref f g : well_shaped g → well_shaped (modify ref f g).
Proof.
  intros Hg. unfold modify. destruct (deref g ref); [|done].
  by apply store_well_shaped.
Qed.

Lemma deref_modify ref f g ref' :
  deref (modify ref f g) ref' =
  if decide (ref' = ref) then f <$> deref g ref' else deref g ref'.
Proof.
  unfold modify. case_decide as Heq.
  - subst ref'. destruct (deref g ref) as [c|] eqn:Hc.
    + by erewrite deref_store_eq.
    + by rewrite Hc.
  - destruct (deref g ref) as [c|]; [|done].
    by rewrite deref_store_ne.
Qed.

Lemma store_store ref c1 c2 g : store ref c2 (store ref c1 g) = store ref c2 g.
Proof.
  unfold store, set_cells; simpl. f_equal.
  apply list_eq. intros i. destruct (decide (i = ref.1)) as [->|Hne].
  - rewrite !list_lookup_alter_eq.
    destruct (_cells g !! ref.1) as [cells_row|]; simpl; [|done].
    by rewrite list_insert_insert_eq.
  - by rewrite !list_lookup_alter_ne.
Qed.

Lemma modify_modify ref f1 f2 g :
  modify ref f2 (modify ref f1 g) = modify ref (λ c, f2 (f1 c)) g.
Proof.
  unfold modify. destruct (deref g ref) as [c|] eqn:Hc.
  - erewrite deref_store_eq by done. apply store_store.
  - by rewrite Hc.
Qed.

Lemma modify_all_rows f ps g : _rows (modify_all f ps g) = _rows g.
Proof.
  revert g. induction ps as [|p ps IH]; intros g; simpl; [done|].
  unfold modify_all in *. simpl. by rewrite IH, modify_rows.
Qed.
Lemma modify_all_cols f ps g : _cols (modify_all f ps g) = _cols g.
Proof.
  revert g. induction ps as [|p ps IH]; intros g; simpl; [done|].
  unfold modify_all in *. simpl. by rewrite IH, modify_cols.
Qed.
Lemma modify_all_sleep f ps g : _sleep (modify_all f ps g) = _sleep g.
Proof.
  revert g. induction ps as [|p ps IH]; intros g; simpl; [done|].
  unfold modify_all in *. simpl. by rewrite IH, modify_sleep.
Qed.

Lemma modify_all_well_shaped f ps g :
  well_shaped g → well_shaped (modify_all f ps g).
Proof.
  revert g. induction ps as [|p ps IH]; intros g Hg; simpl; [done|].
  apply IH. by apply modify_well_shaped.
Qed.

Lemma deref_modify_all f ps g ref :
  NoDup (ref_of <$> ps) →
  deref (modify_all f ps g) ref =
  if decide (ref ∈ ref_of <$> ps) then f <$> deref g ref else deref g ref.
Proof.
  revert g. induction ps as [|p ps IH]; intros g Hnd.
  - rewrite decide_False; [done|]. rewrite fmap_nil. apply not_elem_of_nil.
  - rewrite fmap_cons in Hnd. apply NoDup_cons in Hnd as [Hp Hnd].
    unfold modify_all in *. simpl. rewrite IH by done.
    rewrite deref_modify.
    destruct (decide (ref = ref_of p)) as [->|Hne].
    + rewrite decide_False by done.
      rewrite decide_True by (apply elem_of_cons; by left). done.
    + destruct (decide (ref ∈ ref_of <$> ps)) as [Hin|Hin].
      * rewrite decide_True by (apply elem_of_cons; by right). done.
      * rewrite decide_False; [done|].
        by intros [?|?]%elem_of_cons.
Qed.

Lemma ref_of_inj g p q :
  in_bounds g p.1 p.2 → in_bounds g q.1 q.2 → ref_of p = ref_of q → p = q.
Proof.
  intros [? ?] [? ?]. unfold ref_of. destruct p, q; simpl in *.
  intros [= Hrow Hcol]. f_equal; lia.
Qed.

Lemma elem_of_ref_of g ps p :
  Forall (λ q, in_bounds g q.1 q.2) ps → in_bounds g p.1 p.2 →
  ref_of p ∈ ref_of <$> ps ↔ p ∈ ps.
Proof.
  intros Hps Hp. rewrite list_elem_of_fmap. split.
  - intros (q & Heq & Hq).
    pose proof (proj1 (Forall_forall _ _) Hps q Hq) as Hqb.
    by rewrite (ref_of_inj g p q Hp Hqb Heq).
  - intros H. eauto.
Qed.

Lemma NoDup_ref_of g ps :
  Forall (λ q, in_bounds g q.1 q.2) ps → NoDup ps → NoDup (ref_of <$> ps).
Proof.
  intros Hps Hnd. apply NoDup_fmap_2_strong; [|done].
  intros p q Hp Hq. apply (ref_of_inj g).
  - exact (proj1 (Forall_forall _ _) Hps p Hp).
  - exact (proj1 (Forall_forall _ _) Hps q Hq).
Qed.

(** [self._cells[row][col].m()] at a coordinate in the grid. *)
Lemma subscript_invoke_run (m : Cell.method unit) w p :
  well_shaped (self w) → in_bounds (self w) p.1 p.2 →
  ∃ log, (cell ← subscript p.1 p.2; invoke cell m) w =
         (Return tt, mkWorld (modify (ref_of p) (after m) (self w)) log).
Proof.
  intros Hg Hp. destruct p as [row col]; simpl in *.
  rewrite (bind_return _ _ _ _ _ (subscript_in_bounds _ _ _ Hg Hp)).
  destruct (deref_in_bounds (self w) (row, col) Hg Hp) as [c Hc].
  rewrite (invoke_run _ _ c) by done. eexists. unfold modify, after.
  rewrite Hc. by destruct (m c).1.1.
Qed.

Lemma for_each_modify (body : Z * Z → Py unit) (f : Cell.t → Cell.t) :
  (∀ w p, well_shaped (self w) → in_bounds (self w) p.1 p.2 →
     ∃ log, body p w = (Return tt, mkWorld (modify (ref_of p) f (self w)) log)) →
  ∀ ps w, well_shaped (self w) →
    Forall (λ p, in_bounds (self w) p.1 p.2) ps →
    ∃ log, for_each ps body w = (Return tt, mkWorld (modify_all f ps (self w)) log).
Proof.
  intros Hbody ps. induction ps as [|p ps IH]; intros w Hg Hps; simpl.
  - exists (emitted w). by destruct w.
  - apply Forall_cons in Hps as [Hp Hps].
    destruct (Hbody w p Hg Hp) as [log1 H1].
    rewrite (bind_return _ _ _ _ _ H1).
    apply IH; simpl.
    + by apply modify_well_shaped.
    + eapply Forall_impl; [exact Hps|]. intros q. unfold in_bounds.
      by rewrite modify_rows, modify_cols.
Qed.

Lemma changes_of_in_bounds g :
  Forall (λ p, in_bounds g p.1 p.2) (birth (changes_of g)) ∧
  Forall (λ p, in_bounds g p.1 p.2) (survival (changes_of g)) ∧
  Forall (λ p, in_bounds g p.1 p.2) (death (changes_of g)).
Proof.
  repeat split; apply Forall_forall; intros p [_ Hp]%list_elem_of_filter;
    by apply elem_of_all_coords.
Qed.

Lemma commit_changes_run w :
  well_shaped (self w) →
  ∃ log, Grid.commit_changes (changes_of (self w)) w =
         (Return tt, mkWorld (commit_of (changes_of (self w)) (self w)) log).
Proof.
  intros Hg. set (g := self w). unfold Grid.commit_changes, commit_of.
  destruct (changes_of_in_bounds g) as (Hb & Hs & Hd).
  generalize dependent (changes_of g). intros changes Hb Hs Hd.
  destruct (for_each_modify _ _ (subscript_invoke_run Cell.toggle_value)
              (birth changes) w Hg Hb) as [log1 H1].
  rewrite (bind_return _ _ _ _ _ H1). fold g.
  set (g1 := modify_all _ (birth changes) g).
  assert (∀ ps, Forall (λ p, in_bounds g p.1 p.2) ps →
                Forall (λ p, in_bounds g1 p.1 p.2) ps) as Hin1.
  { intros ps Hps. eapply Forall_impl; [exact Hps|]. intros q. unfold in_bounds, g1.
    by rewrite modify_all_rows, modify_all_cols. }
  destruct (for_each_modify _ _ (subscript_invoke_run Cell.increase_time)
              (survival changes) (mkWorld g1 log1)) as [log2 H2].
  { by apply modify_all_well_shaped. }
  { by apply Hin1. }
  rewrite (bind_return _ _ _ _ _ H2). simpl.
  set (g2 := modify_all _ (survival changes) g1).
  apply (for_each_modify _ (λ c, after Cell.reset_time (after Cell.toggle_value c))).
  - clear. intros w p Hg Hp.
    rewrite (bind_return _ _ _ _ _ (subscript_in_bounds _ _ _ Hg Hp)).
    destruct (deref_in_bounds (self w) p Hg Hp) as [c Hc].
    replace (p.1, p.2) with p by (by destruct p).
    rewrite (bind_return _ _ _ _ _ (invoke_run Cell.toggle_value _ c _ Hc)).
    match goal with |- context [mkWorld ?g1 ?log1] =>
      destruct (subscript_invoke_run Cell.reset_time (mkWorld g1 log1) p)
        as [log2 H2]
    end.
    { by apply store_well_shaped. }
    { done. }
    rewrite H2. exists log2. do 2 f_equal. cbn [self].
    assert (store (ref_of p) (Cell.toggle_value c).1.2 (self w)
            = modify (ref_of p) (after Cell.toggle_value) (self w)) as ->.
    { unfold modify, after. by rewrite Hc. }
    apply modify_modify.
  - by do 2 apply modify_all_well_shaped.
  - simpl. eapply Forall_impl; [exact Hd|]. intros q. unfold in_bounds, g2, g1.
    by rewrite !modify_all_rows, !modify_all_cols.
Qed.

(** ** One call of [update_grid] *)

Lemma update_grid_run w :
  well_formed (self w) →
  ∃ log, Grid.update_grid w =
         (Return tt, mkWorld (commit_of (changes_of (self w)) (self w)) log).
Proof.
  intros Hg. unfold Grid.update_grid.
  rewrite (bind_return _ _ _ _ _ (compute_changes_run w Hg)).
  apply commit_changes_run, Hg.
Qed.

Lemma commit_of_rows changes g : _rows (commit_of changes g) = _rows g.
Proof. unfold commit_of. by rewrite !modify_all_rows. Qed.
Lemma commit_of_cols changes g : _cols (commit_of changes g) = _cols g.
Proof. unfold commit_of. by rewrite !modify_all_cols. Qed.
Lemma commit_of_sleep changes g : _sleep (commit_of changes g) = _sleep g.
Proof. unfold commit_of. by rewrite !modify_all_sleep. Qed.

Lemma commit_of_well_shaped changes g :
  well_shaped g → well_shaped (commit_of changes g).
Proof. intros Hg. unfold commit_of. by do 3 apply modify_all_well_shaped. Qed.

Lemma commit_of_in_bounds changes g row col :
  in_bounds (commit_of changes g) row col ↔ in_bounds g row col.
Proof. unfold in_bounds. by rewrite commit_of_rows, commit_of_cols. Qed.

Lemma elem_of_bucket g (what : fate) p :
  p ∈ filter (λ p, fate_of g p = what) (all_coords g) ↔
  fate_of g p = what ∧ in_bounds g p.1 p.2.
Proof. by rewrite list_elem_of_filter, elem_of_all_coords. Qed.

(** Every cell of the grid moves to the state its fate prescribes, the fate
    being read off the grid of before the call. *)
Lemma cell_at_commit_of g p :
  in_bounds g p.1 p.2 →
  cell_at (commit_of (changes_of g) g) p =
  (λ c, next_cell c (fate_of g p)) <$> cell_at g p.
Proof.
  intros Hp. rewrite !cell_at_in_bounds by (by rewrite ?commit_of_in_bounds).
  destruct (changes_of_in_bounds g) as (Hb & Hs & Hd).
  unfold commit_of. rewrite !deref_modify_all;
    try (eapply NoDup_ref_of; [eassumption|];
         apply NoDup_filter, NoDup_all_coords).
  pose proof (elem_of_ref_of g _ p Hb Hp) as Eb.
  pose proof (elem_of_ref_of g _ p Hs Hp) as Es.
  pose proof (elem_of_ref_of g _ p Hd Hp) as Ed.
  unfold changes_of in Eb, Es, Ed; simpl in Eb, Es, Ed.
  rewrite elem_of_bucket in Eb, Es, Ed.
  unfold changes_of; simpl.
  destruct (fate_of g p) eqn:Hf;
    settle_bucket Ed; settle_bucket Es; settle_bucket Eb;
    by destruct (deref g (ref_of p)).
Qed.

Lemma after_toggle_binary c :
  Cell._value (after Cell.toggle_value c) = 0 ∨
  Cell._value (after Cell.toggle_value c) = 1.
Proof. unfold after; simpl. destruct (Cell._value c =? 0); simpl; auto. Qed.

Lemma next_cell_binary c what :
  Cell._value c = 0 ∨ Cell._value c = 1 →
  Cell._value (next_cell c what) = 0 ∨ Cell._value (next_cell c what) = 1.
Proof.
  intros Hc. destruct what; simpl; try done.
  - apply after_toggle_binary.
  - apply after_toggle_binary.
Qed.

Lemma ref_is_ref_of (ref : CellRef) :
  ref = ref_of (Z.of_nat ref.1, Z.of_nat ref.2).
Proof. destruct ref as [i j]. unfold ref_of; simpl. by rewrite !Nat2Z.id. Qed.

(** A cell object of a well-shaped grid is the cell at a coordinate. *)
Lemma deref_cell_at g ref c :
  well_shaped g → deref g ref = Some c →
  ∃ p, ref = ref_of p ∧ in_bounds g p.1 p.2 ∧ cell_at g p = Some c.
Proof.
  intros Hg Hc. exists (Z.of_nat ref.1, Z.of_nat ref.2).
  pose proof (deref_in_range _ _ _ Hg Hc) as [Hi Hj].
  assert (in_bounds g (Z.of_nat ref.1) (Z.of_nat ref.2)) as Hp
    by (unfold in_bounds; lia).
  split; [apply ref_is_ref_of|]. split; [done|].
  rewrite cell_at_in_bounds by done. by rewrite <- ref_is_ref_of.
Qed.

Lemma commit_of_well_formed g :
  well_formed g → well_formed (commit_of (changes_of g) g).
Proof.
  intros [Hs Hb]. split; [by apply commit_of_well_shaped|].
  apply binary_valued_pointwise. intros ref c Hc.
  destruct (deref_cell_at _ _ _ (commit_of_well_shaped _ _ Hs) Hc)
    as (p & -> & Hp & Hcell).
  apply (proj1 (commit_of_in_bounds _ _ _ _)) in Hp.
  rewrite cell_at_commit_of in Hcell by done.
  destruct (cell_at g p) as [c0|] eqn:Hc0; simplify_eq/=.
  apply next_cell_binary. apply cell_at_Some in Hc0 as [_ Hc0].
  by eapply binary_valued_deref.
Qed.

(** ** The rules of one generation *)

Lemma update_grid_cell w p c :
  well_formed (self w) → cell_at (self w) p = Some c →
  ∃ w', Grid.update_grid w = (Return tt, w') ∧
        well_formed (self w') ∧
        cell_at (self w') p = Some (next_cell c (fate_of (self w) p)).
Proof.
  intros Hwf Hc. destruct (update_grid_run w Hwf) as [log Hrun].
  eexists. split; [exact Hrun|]. simpl. split.
  - by apply commit_of_well_formed.
  - apply cell_at_Some in Hc as Hp. destruct Hp as [Hp _].
    by rewrite cell_at_commit_of, Hc.
Qed.

Lemma fate_of_at g p c :
  cell_at g p = Some c →
  fate_of g p = fate_of_cell (Cell._value c) (moore_count g p.1 p.2).
Proof. intros Hc. unfold fate_of, alive_at. by rewrite Hc. Qed.

(** C2 (survival rule): on a well-formed grid, a cell that is alive and has 2
    or 3 alive neighbours before [update_grid] is alive after the call, which
    returns, and its alive time is the one of before plus exactly 1. *)
Theorem survival_rule (w : World) (row col : Z) (c : Cell.t)
    (Hwf : well_formed (self w))
    (Hin : in_bounds (self w) row col)
    (Hcell : cell_at (self w) (row, col) = Some c)
    (Halive : Cell._value c = 1)
    (Hcount : moore_count (self w) row col = 2 ∨ moore_count (self w) row col = 3) :
  ∃ w', Grid.update_grid w = (Return tt, w') ∧
        cell_at (self w') (row, col) = Some (Cell.mk 1 (Cell._alive_time c + 1)).
Proof.
  destruct (update_grid_cell w (row, col) c Hwf Hcell) as (w' & Hrun & _ & Hc').
  exists w'. split; [done|]. rewrite Hc'. f_equal.
  rewrite (fate_of_at _ _ c Hcell). simpl. unfold fate_of_cell.
  rewrite Halive. destruct Hcount as [-> | ->]; simpl;
    unfold after; simpl; by rewrite Halive.
Qed.

(** C3, as amended (birth rule): on a well-formed grid, a cell that is dead
    and has exactly 3 alive neighbours before [update_grid] is alive after the
    call, which returns, and its alive time is the one it had before the call:
    it is 0 when the cell had the alive time 0, as the Cell invariant asks of a
    dead cell. *)
Theorem birth_rule_keeps_duration (w : World) (row col : Z) (c : Cell.t)
    (Hwf : well_formed (self w))
    (Hin : in_bounds (self w) row col)
    (Hcell : cell_at (self w) (row, col) = Some c)
    (Hdead : Cell._value c = 0)
    (Hcount : moore_count (self w) row col = 3) :
  ∃ w', Grid.update_grid w = (Return tt, w') ∧
        cell_at (self w') (row, col) = Some (Cell.mk 1 (Cell._alive_time c)) ∧
        (dead_means_zero c → cell_at (self w') (row, col) = Some (Cell.mk 1 0)).
Proof.
  destruct (update_grid_cell w (row, col) c Hwf Hcell) as (w' & Hrun & _ & Hc').
  exists w'. split; [done|].
  assert (cell_at (self w') (row, col) = Some (Cell.mk 1 (Cell._alive_time c))) as H1.
  { rewrite Hc'. f_equal. rewrite (fate_of_at _ _ c Hcell). simpl.
    unfold fate_of_cell. rewrite Hdead, Hcount. simpl.
    unfold after; simpl. by rewrite Hdead. }
  split; [done|]. intros Hinv. rewrite H1. by rewrite (Hinv Hdead).
Qed.

(** C4 (death rule): on a well-formed grid, a cell that is alive and whose
    number of alive neighbours is neither 2 nor 3 before [update_grid] is dead
    after the call, which returns, with the alive time 0. *)
Theorem death_rule (w : World) (row col : Z) (c : Cell.t)
    (Hwf : well_formed (self w))
    (Hin : in_bounds (self w) row col)
    (Hcell : cell_at (self w) (row, col) = Some c)
    (Halive : Cell._value c = 1)
    (Hcount : moore_count (self w) row col ≠ 2 ∧ moore_count (self w) row col ≠ 3) :
  ∃ w', Grid.update_grid w = (Return tt, w') ∧
        cell_at (self w') (row, col) = Some (Cell.mk 0 0).
Proof.
  destruct (update_grid_cell w (row, col) c Hwf Hcell) as (w' & Hrun & _ & Hc').
  exists w'. split; [done|]. rewrite Hc'. f_equal.
  rewrite (fate_of_at _ _ c Hcell). simpl. unfold fate_of_cell.
  rewrite Halive. destruct Hcount as [H2 H3].
  apply Z.eqb_neq in H2, H3. rewrite H2, H3. simpl.
  unfold after; simpl. by rewrite Halive.
Qed.

Lemma survival_rule_witness :
  ∃ w', Grid.update_grid blinker_5x5 = (Return tt, w') ∧
        cell_at (self w') (1, 2) = Some (Cell.mk 1 (0 + 1)).
Proof.
  apply (survival_rule blinker_5x5 1 2 (Cell.mk 1 0)).
  - by_evaluation.
  - by_evaluation.
  - by_evaluation.
  - reflexivity.
  - left. by_evaluation.
Defined.

Lemma birth_rule_keeps_duration_witness :
  ∃ w', Grid.update_grid blinker_5x5 = (Return tt, w') ∧
        cell_at (self w') (0, 2) = Some (Cell.mk 1 0) ∧
        (dead_means_zero (Cell.mk 0 0) → cell_at (self w') (0, 2) = Some (Cell.mk 1 0)).
Proof.
  apply (birth_rule_keeps_duration blinker_5x5 0 2 (Cell.mk 0 0)).
  - by_evaluation.
  - by_evaluation.
  - by_evaluation.
  - reflexivity.
  - by_evaluation.
Defined.

(** C3, as stated, fails: in a 2x2 grid built through the public interface,
    the dead cell (1,1) has the alive time 5 and three alive neighbours;
    [update_grid] makes it alive and leaves its alive time at 5, not 0. *)
Lemma birth_rule_counterexample :
  well_formed (self dead_with_duration_2x2) ∧
  cell_at (self dead_with_duration_2x2) (1, 1) = Some (Cell.mk 0 5) ∧
  moore_count (self dead_with_duration_2x2) 1 1 = 3 ∧
  cell_at (self (world_after Grid.update_grid dead_with_duration_2x2)) (1, 1)
    = Some (Cell.mk 1 5) ∧
  ¬ birth_rule_as_stated.
Proof.
  assert (well_formed (self dead_with_duration_2x2)) as Hwf by by_evaluation.
  split; [done|]. do 3 (split; [by_evaluation|]).
  intros Hclaim.
  destruct (Hclaim dead_with_duration_2x2 1 1 (Cell.mk 0 5))
    as (w' & Hrun & Hc'); [done|by_evaluation..|].
  assert (w' = world_after Grid.update_grid dead_with_duration_2x2) as ->.
  { unfold world_after. by rewrite Hrun. }
  vm_compute in Hc'. discriminate Hc'.
Qed.

Lemma death_rule_witness :
  ∃ w', Grid.update_grid blinker_5x5 = (Return tt, w') ∧
        cell_at (self w') (1, 1) = Some (Cell.mk 0 0).
Proof.
  apply (death_rule blinker_5x5 1 1 (Cell.mk 1 0)).
  - by_evaluation.
  - by_evaluation.
  - by_evaluation.
  - reflexivity.
  - split; vm_compute; discriminate.
Defined.

(** ** The count of [alive_neighbors] *)

Lemma corner_neighbors g : (length (neighbors g 0 0) ≤ 3)%nat.
Proof.
  unfold neighbors, moore_offsets. simpl.
  rewrite !filter_cons, filter_nil.
  repeat match goal with
         | |- context [decide ?P] =>
             let H := fresh "Hin" in
             destruct (decide P) as [H|H];
             [try (exfalso; apply Is_true_true_1, in_boundsb_spec in H;
                   unfold in_bounds in H; simpl in H; lia)|]
         end; simpl; lia.
Qed.

(** C5: on a well-formed grid and at a coordinate of the grid,
    [alive_neighbors] returns the number of alive cells among the neighbour
    positions that lie in the grid (positions outside count for nothing), at
    most 8 of them; the result is between 0 and 8; the call leaves every cell
    and every attribute as they were and emits nothing.  At the corner (0,0)
    at most 3 positions are counted.  In the 5x5 grid whose only alive cell
    is (2,2), each of the 8 neighbours of (2,2) gets the count 1. *)
Theorem alive_neighbors_counts_moore (w : World) (row col : Z)
    (Hwf : well_formed (self w))
    (Hin : in_bounds (self w) row col) :
  Grid.alive_neighbors row col w = (Return (moore_count (self w) row col), w) ∧
  (length (neighbors (self w) row col) ≤ 8)%nat ∧
  0 ≤ moore_count (self w) row col ≤ 8 ∧
  ((length (neighbors (self w) 0 0) ≤ 3)%nat ∧ moore_count (self w) 0 0 ≤ 3) ∧
  alive_cells (self single_alive_5x5) = [(2, 2)] ∧
  Forall (λ d, Grid.alive_neighbors (2 + d.1) (2 + d.2) single_alive_5x5
               = (Return 1, single_alive_5x5)) moore_offsets.
Proof.
  split; [by apply alive_neighbors_run|].
  split; [apply neighbors_length|].
  split; [apply moore_count_bounds|].
  split.
  - pose proof (corner_neighbors (self w)) as Hcorner. split; [done|].
    unfold moore_count.
    pose proof (length_filter (λ p, is_alive (self w) p) (neighbors (self w) 0 0)).
    lia.
  - split; [by_evaluation|].
    unfold moore_offsets.
    repeat (apply Forall_cons_2; [by_evaluation|]). apply Forall_nil_2.
Qed.

Lemma alive_neighbors_counts_moore_witness :
  Grid.alive_neighbors 1 2 blinker_5x5
  = (Return (moore_count (self blinker_5x5) 1 2), blinker_5x5) ∧
  moore_count (self blinker_5x5) 1 2 = 2.
Proof.
  assert (well_formed (self blinker_5x5)) as Hwf by by_evaluation.
  assert (in_bounds (self blinker_5x5) 1 2) as Hin by by_evaluation.
  split; [|by_evaluation].
  exact (proj1 (alive_neighbors_counts_moore blinker_5x5 1 2 Hwf Hin)).
Defined.

(** ** [get_cell] *)

Lemma subscript_wraps w row col :
  well_shaped (self w) →
  - _rows (self w) ≤ row < _rows (self w) →
  - _cols (self w) ≤ col < _cols (self w) →
  subscript row col w =
    (Return (ref_of (wrap_index (_rows (self w)) row,
                     wrap_index (_cols (self w)) col)), w).
Proof.
  intros Hg Hr Hc.
  assert (in_bounds (self w) (wrap_index (_rows (self w)) row)
                             (wrap_index (_cols (self w)) col)) as Hp.
  { unfold in_bounds, wrap_index.
    destruct (Z.ltb_spec row 0), (Z.ltb_spec col 0); lia. }
  pose proof (subscript_in_bounds _ _ _ Hg Hp) as Hsub.
  unfold subscript in *. destruct Hg as [Hrows Hcols].
  assert (py_norm_index (length (_cells (self w))) row
          = py_norm_index (length (_cells (self w))) (wrap_index (_rows (self w)) row))
    as ->.
  { unfold wrap_index. destruct (Z.ltb_spec row 0).
    - rewrite py_norm_index_neg, py_norm_index_in by lia. f_equal. lia.
    - done. }
  destruct (py_norm_index _ (wrap_index _ row)) as [i|]; [|done].
  destruct (_cells (self w) !! i) as [cells_row|] eqn:Hi; [|done].
  pose proof (proj1 (Forall_lookup _ _) Hcols _ _ Hi) as Hlen. simpl in Hlen.
  assert (py_norm_index (length cells_row) col
          = py_norm_index (length cells_row) (wrap_index (_cols (self w)) col))
    as ->; [|done].
  unfold wrap_index. destruct (Z.ltb_spec col 0).
  - rewrite py_norm_index_neg, py_norm_index_in by lia. f_equal. lia.
  - done.
Qed.

Lemma subscript_raises w row col :
  well_shaped (self w) →
  row < - _rows (self w) ∨ _rows (self w) ≤ row ∨
  col < - _cols (self w) ∨ _cols (self w) ≤ col →
  subscript row col w = (Raise IndexError, w).
Proof.
  intros [Hrows Hcols] Hout. unfold subscript.
  destruct (py_norm_index (length (_cells (self w))) row) as [i|] eqn:Hrow; [|done].
  destruct (_cells (self w) !! i) as [cells_row|] eqn:Hi; [|done].
  pose proof (proj1 (Forall_lookup _ _) Hcols _ _ Hi) as Hlen. simpl in Hlen.
  rewrite py_norm_index_out; [done|].
  destruct (decide (col < - Z.of_nat (length cells_row)
                    ∨ Z.of_nat (length cells_row) ≤ col)) as [|Hcol]; [done|].
  exfalso. apply py_norm_index_lt in Hrow as Hlt.
  unfold py_norm_index in Hrow.
  destruct (Z.leb_spec 0 row), (Z.ltb_spec row (Z.of_nat (length (_cells (self w))))),
    (Z.leb_spec (- Z.of_nat (length (_cells (self w)))) row), (Z.ltb_spec row 0);
    simpl in Hrow; try discriminate; lia.
Qed.

(** C8, as amended: on a well-shaped grid, [get_cell] returns the cell at the
    coordinate for every coordinate of the grid, distinct coordinates giving
    distinct cells; it raises [IndexError], leaving the world as it is, when
    [row] is not in [-rows, rows) or [col] is not in [-cols, cols); and for a
    negative index in that range it returns, as Python lists do, the cell
    counted from the end ([row + rows], [col + cols]). *)
Theorem get_cell_python_indexing (w : World) (row col : Z)
    (Hshape : well_shaped (self w)) :
  (in_bounds (self w) row col →
     Grid.get_cell row col w = (Return (ref_of (row, col)), w) ∧
     is_Some (deref (self w) (ref_of (row, col))) ∧
     ∀ row' col', in_bounds (self w) row' col' →
       Grid.get_cell row' col' w = Grid.get_cell row col w →
       (row', col') = (row, col)) ∧
  (row < - _rows (self w) ∨ _rows (self w) ≤ row ∨
   col < - _cols (self w) ∨ _cols (self w) ≤ col →
     Grid.get_cell row col w = (Raise IndexError, w)) ∧
  (- _rows (self w) ≤ row < _rows (self w) →
   - _cols (self w) ≤ col < _cols (self w) →
     Grid.get_cell row col w =
       (Return (ref_of (wrap_index (_rows (self w)) row,
                        wrap_index (_cols (self w)) col)), w)).
Proof.
  unfold Grid.get_cell. split; [|split].
  - intros Hin. split; [by apply subscript_in_bounds|].
    split; [by apply (deref_in_bounds _ (row, col))|].
    intros row' col' Hin'.
    rewrite !subscript_in_bounds by done. intros [= Heq1 Heq2].
    apply (ref_of_inj (self w) (row', col') (row, col)); [done..|].
    unfold ref_of; simpl. by rewrite Heq1, Heq2.
  - by apply subscript_raises.
  - by apply subscript_wraps.
Qed.

Lemma get_cell_python_indexing_witness :
  Grid.get_cell (-1) (-2) (fresh 2 3) = (Return (1%nat, 1%nat), fresh 2 3) ∧
  Grid.get_cell 2 0 (fresh 2 3) = (Raise IndexError, fresh 2 3).
Proof.
  assert (well_shaped (self (fresh 2 3))) as Hshape.
  { apply (bool_decide_unpack _). vm_compute. exact I. }
  destruct (get_cell_python_indexing (fresh 2 3) (-1) (-2) Hshape) as (_ & _ & Hneg).
  destruct (get_cell_python_indexing (fresh 2 3) 2 0 Hshape) as (_ & Hout & _).
  split.
  - apply Hneg; simpl; lia.
  - apply Hout. simpl. lia.
Defined.

(** C8, as stated, fails: in a fresh 2x2 grid the row index -1 is outside
    [0, 2), and [get_cell(-1, 0)] raises nothing: it returns the cell of the
    last row. *)
Lemma get_cell_negative_index_counterexample :
  ¬ in_bounds (self (fresh 2 2)) (-1) 0 ∧
  Grid.get_cell (-1) 0 (fresh 2 2) = (Return (1%nat, 0%nat), fresh 2 2) ∧
  ¬ get_cell_as_stated.
Proof.
  assert (¬ in_bounds (self (fresh 2 2)) (-1) 0) as Hout.
  { unfold in_bounds. simpl. lia. }
  split; [done|]. split; [by_evaluation|].
  intros Hclaim.
  destruct (Hclaim (fresh 2 2) (-1) 0) as [Hraise _]; [by_evaluation|].
  specialize (Hraise Hout). vm_compute in Hraise. discriminate Hraise.
Qed.

(** ** The tick interval *)


(** There is one such integer only. *)
Lemma nearest_thousandth_unique (m : positive) (e k1 k2 : Z) :
  PyFloat.nearest_thousandth m e k1 = true →
  PyFloat.nearest_thousandth m e k2 = true →
  k1 = k2.
Proof.
  destruct e as [|j|j]; unfold PyFloat.nearest_thousandth;
    [intros H1%Z.eqb_eq H2%Z.eqb_eq; lia..|].
  set (n := 1000 * Zpos m). set (d := 2 ^ Zpos j).
  assert (0 < d) as Hd by (apply Z.pow_pos_nonneg; lia).
  intros [H1 E1]%andb_true_iff [H2 E2]%andb_true_iff.
  apply Z.leb_le in H1, H2.
  destruct (Z.eqb_spec (Z.abs (2 * n - 2 * k1 * d)) d) as [T1|T1];
    destruct (Z.eqb_spec (Z.abs (2 * n - 2 * k2 * d)) d) as [T2|T2].
  - apply Z.even_spec in E1 as [a ->], E2 as [b ->].
    assert (-1 < a - b < 1) by nia. lia.
  - assert (-1 < k1 - k2 < 1) by nia. lia.
  - assert (-1 < k1 - k2 < 1) by nia. lia.
  - assert (-1 < k1 - k2 < 1) by nia. lia.
Qed.



(** The three literals are the floats nearest to [3/100], [33/1000] and
    [1/10]. *)
Lemma literals_nearest :
  PyFloat.nearest_to_ratio 3 100 PyFloat.lit_0_03 = true ∧
  PyFloat.nearest_to_ratio 33 1000 PyFloat.lit_0_033 = true ∧
  PyFloat.nearest_to_ratio 1 10 PyFloat.lit_0_1 = true.
Proof. vm_compute. done. Qed.



(** C10: [set_sleep(0)] raises [ZeroDivisionError] and leaves the world,
    the tick interval included, as it was; so does [set_sleep] of the floats
    [0.0] and [-0.0]. *)
Theorem set_sleep_zero_raises (w : World) :
  Grid.set_sleep (PyFloat.Int 0) w = (Raise ZeroDivisionError, w) ∧
  _sleep (self (world_after (Grid.set_sleep (PyFloat.Int 0)) w)) = _sleep (self w) ∧
  ∀ s, Grid.set_sleep (PyFloat.Float (S754_zero s)) w = (Raise ZeroDivisionError, w).
Proof. repeat split. Qed.

(** ** [reset] *)

Lemma for_each_fmap {A B : Type} (f : A → B) (body : B → Py unit) xs w :
  for_each (f <$> xs) body w = for_each xs (λ x, body (f x)) w.
Proof.
  revert w. induction xs as [|x xs IH]; intros w; simpl; [done|].
  unfold mbind, Py_bind. destruct (body (f x) w) as [[[]|e] w1]; [apply IH|done].
Qed.

Lemma modify_all_app f ps qs g :
  modify_all f (ps ++ qs) g = modify_all f qs (modify_all f ps g).
Proof. unfold modify_all. by rewrite foldl_app. Qed.

Lemma list_bind_ext_in {A B : Type} (f g : A → list B) xs :
  (∀ x, x ∈ xs → f x = g x) → xs ≫= f = xs ≫= g.
Proof.
  induction xs as [|x xs IH]; intros Hfg; [done|].
  rewrite !bind_cons, IH, Hfg; [done|by left|].
  intros y Hy. apply Hfg. by right.
Qed.

Lemma deref_modify_all_other f ps g ref :
  ref ∉ ref_of <$> ps → deref (modify_all f ps g) ref = deref g ref.
Proof.
  revert g. induction ps as [|p ps IH]; intros g Hnot; [done|].
  rewrite fmap_cons in Hnot. apply not_elem_of_cons in Hnot as [Hne Hnot].
  unfold modify_all in *. simpl. rewrite IH by done.
  rewrite deref_modify. by rewrite decide_False.
Qed.

(** A loop over distinct cells of the grid whose body changes the cell it is
    at by [f] and emits for it the signals [signals], read off the cell. *)
Lemma for_each_emits (body : Z * Z → Py unit) (f : Cell.t → Cell.t)
    (signals : CellRef → option Cell.t → list Emission) :
  (∀ w p, well_shaped (self w) → in_bounds (self w) p.1 p.2 →
     body p w =
       (Return tt,
        mkWorld (modify (ref_of p) f (self w))
                (emitted w ++ signals (ref_of p) (deref (self w) (ref_of p))))) →
  ∀ ps w, well_shaped (self w) →
    Forall (λ p, in_bounds (self w) p.1 p.2) ps →
    NoDup (ref_of <$> ps) →
    for_each ps body w =
      (Return tt,
       mkWorld (modify_all f ps (self w))
               (emitted w ++
                (ps ≫= λ p, signals (ref_of p) (deref (self w) (ref_of p))))).
Proof.
  intros Hbody ps. induction ps as [|p ps IH]; intros w Hg Hps Hnd; simpl.
  - rewrite app_nil_r. by destruct w.
  - apply Forall_cons in Hps as [Hp Hps].
    rewrite fmap_cons in Hnd. apply NoDup_cons in Hnd as [Hfresh Hnd].
    rewrite (bind_return _ _ _ _ _ (Hbody w p Hg Hp)).
    rewrite IH; simpl.
    + rewrite <- app_assoc. do 4 f_equal.
      apply (list_bind_ext_in _
               (λ q, signals (ref_of q) (deref (self w) (ref_of q)))).
      intros q Hq. f_equal.
      rewrite deref_modify, decide_False; [done|].
      intros Heq. apply Hfresh. rewrite <- Heq.
      apply list_elem_of_fmap. eauto.
    + by apply modify_well_shaped.
    + eapply Forall_impl; [exact Hps|]. intros q. unfold in_bounds.
      by rewrite modify_rows, modify_cols.
    + done.
Qed.

(** The same for a loop whose body handles, for each [x], the cells [k x]. *)
Lemma for_each_rows_emit {X : Type} (body : X → Py unit) (f : Cell.t → Cell.t)
    (signals : CellRef → option Cell.t → list Emission)
    (k : X → list (Z * Z)) (rows cols : Z) xs :
  (∀ w x, x ∈ xs → well_shaped (self w) →
     _rows (self w) = rows → _cols (self w) = cols →
     body x w =
       (Return tt,
        mkWorld (modify_all f (k x) (self w))
                (emitted w ++
                 (k x ≫= λ p, signals (ref_of p) (deref (self w) (ref_of p)))))) →
  NoDup (ref_of <$> (xs ≫= k)) →
  ∀ w, well_shaped (self w) → _rows (self w) = rows → _cols (self w) = cols →
    for_each xs body w =
      (Return tt,
       mkWorld (modify_all f (xs ≫= k) (self w))
               (emitted w ++
                ((xs ≫= k) ≫= λ p, signals (ref_of p) (deref (self w) (ref_of p))))).
Proof.
  induction xs as [|x xs IH]; intros Hbody Hnd w Hg Hrows Hcols; simpl.
  - rewrite app_nil_r. by destruct w.
  - rewrite bind_cons, fmap_app in Hnd.
    apply NoDup_app in Hnd as (Hnd1 & Hdisjoint & Hnd2).
    rewrite (bind_return _ _ _ _ _ (Hbody w x ltac:(by left) Hg Hrows Hcols)).
    rewrite modify_all_app, IH; simpl.
    + rewrite bind_app, <- app_assoc. do 4 f_equal.
      apply (list_bind_ext_in _
               (λ q, signals (ref_of q) (deref (self w) (ref_of q)))).
      intros q Hq. f_equal.
      apply deref_modify_all_other. intros Hin.
      apply (Hdisjoint _ Hin). apply list_elem_of_fmap. eauto.
    + intros w' y Hy. apply Hbody. by right.
    + done.
    + by apply modify_all_well_shaped.
    + by rewrite modify_all_rows.
    + by rewrite modify_all_cols.
Qed.

(** The body of the loops of [reset], at a coordinate of the grid. *)
Lemma reset_body_run w p :
  well_shaped (self w) → in_bounds (self w) p.1 p.2 →
  (cell ← subscript p.1 p.2;
   v ← invoke cell Cell.get_value;
   if v =? 1 then invoke cell Cell.toggle_value else mret tt) w
  = (Return tt,
     mkWorld (modify (ref_of p) kill (self w))
             (emitted w ++ kill_signals (ref_of p) (deref (self w) (ref_of p)))).
Proof.
  intros Hg Hp.
  rewrite (bind_return _ _ _ _ _ (subscript_in_bounds _ _ _ Hg Hp)).
  destruct (deref_in_bounds (self w) p Hg Hp) as [c Hc].
  replace (p.1, p.2) with p by (by destruct p).
  rewrite (bind_return _ _ _ _ _ (invoke_get_value _ _ _ Hc)).
  unfold modify, kill, kill_signals. rewrite Hc. destruct (Cell._value c =? 1).
  - by rewrite (invoke_run _ _ c).
  - rewrite ret_run, store_id, app_nil_r by done. by destruct w.
Qed.

Lemma all_coords_in_bounds g : Forall (λ p, in_bounds g p.1 p.2) (all_coords g).
Proof. apply Forall_forall. intros p. apply elem_of_all_coords. Qed.

Lemma NoDup_all_refs g : NoDup (ref_of <$> all_coords g).
Proof.
  eapply NoDup_ref_of; [apply all_coords_in_bounds|apply NoDup_all_coords].
Qed.

(** [reset] changes every cell by [kill] and emits, row by row, the signals
    of the cells it toggles. *)
Lemma reset_run_emits w :
  well_shaped (self w) →
  Grid.reset w =
    (Return tt,
     mkWorld (modify_all kill (all_coords (self w)) (self w))
             (emitted w ++
              (all_coords (self w) ≫=
                 λ p, kill_signals (ref_of p) (deref (self w) (ref_of p))))).
Proof.
  intros Hg. unfold Grid.reset.
  rewrite (bind_return _ _ w (_rows (self w)) w) by done.
  unfold all_coords at 1 2.
  apply (for_each_rows_emit _ kill kill_signals
           (λ row, (λ col, (row, col)) <$> py_range 0 (_cols (self w)))
           (_rows (self w)) (_cols (self w))); [|apply NoDup_all_refs|done..].
  intros w1 row Hrow%elem_of_py_range Hg1 Hrows1 Hcols1.
  rewrite (bind_return _ _ w1 (_cols (self w1)) w1) by done.
  rewrite Hcols1, <- (for_each_fmap (λ col, (row, col))
    (λ p, cell ← subscript p.1 p.2;
          v ← invoke cell Cell.get_value;
          if v =? 1 then invoke cell Cell.toggle_value else mret tt)).
  apply (for_each_emits _ kill kill_signals); [apply reset_body_run|done|..].
  - apply Forall_forall.
    intros p (col & -> & Hcol%elem_of_py_range)%list_elem_of_fmap.
    unfold in_bounds. simpl. lia.
  - apply (NoDup_ref_of (self w1)).
    + apply Forall_forall.
      intros p (col & -> & Hcol%elem_of_py_range)%list_elem_of_fmap.
      unfold in_bounds. simpl. lia.
    + apply NoDup_fmap_2; [|apply NoDup_py_range]. by intros c1 c2 [= ->].
Qed.

Lemma reset_run w :
  well_shaped (self w) →
  ∃ log, Grid.reset w =
         (Return tt, mkWorld (modify_all kill (all_coords (self w)) (self w)) log).
Proof. intros Hg. rewrite reset_run_emits by done. eauto. Qed.

Lemma cell_at_reset g p :
  cell_at (modify_all kill (all_coords g) g) p = kill <$> cell_at g p.
Proof.
  unfold cell_at, in_boundsb. rewrite modify_all_rows, modify_all_cols.
  fold (in_boundsb g p). destruct (in_boundsb g p) eqn:Hp; [|done].
  apply in_boundsb_spec in Hp.
  rewrite deref_modify_all
    by (eapply NoDup_ref_of; [apply all_coords_in_bounds|apply NoDup_all_coords]).
  rewrite decide_True; [done|].
  apply (elem_of_ref_of g); [apply all_coords_in_bounds|done|].
  by apply elem_of_all_coords.
Qed.

(** With no alive cell, [reset] calls no method that changes a cell or emits
    a signal. *)
Lemma reset_all_dead w :
  well_shaped (self w) →
  (∀ p c, cell_at (self w) p = Some c → Cell._value c ≠ 1) →
  Grid.reset w = (Return tt, w).
Proof.
  intros Hg Hdead. unfold Grid.reset.
  rewrite (bind_return _ _ w (_rows (self w)) w) by done.
  apply for_each_skip. intros row Hrow%elem_of_py_range.
  rewrite (bind_return _ _ w (_cols (self w)) w) by done.
  apply for_each_skip. intros col Hcol%elem_of_py_range.
  assert (in_bounds (self w) row col) as Hp by (split; lia).
  rewrite (bind_return _ _ _ _ _ (subscript_in_bounds _ _ _ Hg Hp)).
  destruct (deref_in_bounds (self w) (row, col) Hg Hp) as [c Hc].
  rewrite (bind_return _ _ _ _ _ (invoke_get_value _ _ _ Hc)).
  assert (Cell._value c ≠ 1) as Hv%Z.eqb_neq.
  { apply (Hdead (row, col)). by rewrite cell_at_in_bounds. }
  by rewrite Hv.
Qed.

Lemma kill_dead c :
  Cell._value c = 0 ∨ Cell._value c = 1 →
  kill c = Cell.mk 0 (if Cell._value c =? 1 then 0 else Cell._alive_time c).
Proof.
  intros [Hv|Hv]; unfold kill, after; simpl; rewrite Hv; simpl; [|done].
  destruct c; simpl in *. by subst.
Qed.

Lemma alive_cells_nil g p c :
  alive_cells g = [] → cell_at g p = Some c → Cell._value c ≠ 1.
Proof.
  intros Hnil Hc Hv. apply cell_at_Some in Hc as Hp. destruct Hp as [Hp _].
  assert (p ∈ alive_cells g) as Hin.
  { apply list_elem_of_filter. split; [|by apply elem_of_all_coords].
    unfold is_alive, alive_at. rewrite Hc, Hv. done. }
  rewrite Hnil in Hin. by apply elem_of_nil in Hin.
Qed.

(** The signals of [reset]: one, with the arguments (0, 0), for each cell
    that was alive. *)
Lemma kill_signals_alive g ps :
  well_formed g → Forall (λ p, in_bounds g p.1 p.2) ps →
  ps ≫= (λ p, kill_signals (ref_of p) (deref g (ref_of p))) =
  (λ p, mkEmission (ref_of p) 0 0) <$> filter (λ p, is_alive g p) ps.
Proof.
  intros [Hs Hb] Hps. induction ps as [|p ps IH]; [done|].
  apply Forall_cons in Hps as [Hp Hps].
  rewrite bind_cons, filter_cons, IH by done.
  destruct (deref_in_bounds g p Hs Hp) as [c Hc].
  assert (is_alive g p = (Cell._value c =? 1)) as Halive.
  { unfold is_alive, alive_at. by rewrite cell_at_in_bounds, Hc. }
  rewrite Hc. unfold kill_signals.
  destruct (decide (is_alive g p)) as [Hd|Hd]; rewrite Halive in Hd;
    destruct (binary_valued_deref _ _ _ Hb Hc) as [Hv|Hv];
    rewrite Hv in *; simpl in *; try done.
  by rewrite Hv.
Qed.

(** C7, as amended: on a well-formed grid [reset] returns and leaves every
    cell with the value 0; a cell that was alive has the alive time 0 and a
    cell that was dead keeps its alive time, so every cell ends as (0, 0) when
    the grid satisfied the Cell invariant before the call.  The call emits one
    signal, with the arguments (0, 0), for each cell that was alive and none
    for the others.  On a grid with no alive cell the call leaves the world as
    it was, emitted signals included, and a second [reset] after a first
    changes nothing. *)
Theorem reset_kills_alive_cells (w : World) (Hwf : well_formed (self w)) :
  ∃ w', Grid.reset w = (Return tt, w') ∧
        _rows (self w') = _rows (self w) ∧ _cols (self w') = _cols (self w) ∧
        emitted w' =
          emitted w ++ ((λ p, mkEmission (ref_of p) 0 0) <$> alive_cells (self w)) ∧
        (∀ p c, cell_at (self w) p = Some c →
           cell_at (self w') p =
             Some (Cell.mk 0 (if Cell._value c =? 1 then 0 else Cell._alive_time c))) ∧
        (duration_invariant (self w) →
           ∀ p c', cell_at (self w') p = Some c' → c' = Cell.mk 0 0) ∧
        (alive_cells (self w) = [] → w' = w) ∧
        Grid.reset w' = (Return tt, w').
Proof.
  pose proof Hwf as [Hs Hb]. pose proof (reset_run_emits w Hs) as Hrun.
  eexists. split; [exact Hrun|]. simpl.
  rewrite modify_all_rows, modify_all_cols. do 2 (split; [done|]).
  split.
  { f_equal. apply kill_signals_alive; [done|apply all_coords_in_bounds]. }
  assert (∀ p c, cell_at (self w) p = Some c →
            cell_at (modify_all kill (all_coords (self w)) (self w)) p =
            Some (Cell.mk 0 (if Cell._value c =? 1 then 0 else Cell._alive_time c)))
    as Hcells.
  { intros p c Hc. rewrite cell_at_reset, Hc. simpl. f_equal.
    apply kill_dead. apply cell_at_Some in Hc as [_ Hc].
    by eapply binary_valued_deref. }
  assert (∀ p c', cell_at (modify_all kill (all_coords (self w)) (self w)) p = Some c' →
            ∃ c, cell_at (self w) p = Some c) as Hsource.
  { intros p c' Hc'. rewrite cell_at_reset in Hc'.
    destruct (cell_at (self w) p); [eauto|done]. }
  split; [done|]. split; [|split].
  - intros Hinv p c' Hc'. destruct (Hsource p c' Hc') as [c Hc].
    rewrite (Hcells p c Hc) in Hc'. injection Hc' as <-.
    apply cell_at_Some in Hc as [_ Hc].
    pose proof (binary_valued_deref _ _ _ Hb Hc) as [Hv|Hv]; rewrite Hv; simpl; [|done].
    f_equal. by apply (proj1 (duration_invariant_pointwise _) Hinv _ _ Hc).
  - intros Hnil.
    pose proof (reset_all_dead w Hs (λ p c, alive_cells_nil _ p c Hnil)) as Hskip.
    rewrite Hskip in Hrun. by injection Hrun as <-.
  - apply reset_all_dead; simpl; [by apply modify_all_well_shaped|].
    intros p c' Hc'. destruct (Hsource p c' Hc') as [c Hc].
    rewrite (Hcells p c Hc) in Hc'. by injection Hc' as <-.
Qed.

Lemma reset_kills_alive_cells_witness :
  ∃ w', Grid.reset blinker_5x5 = (Return tt, w') ∧
        _rows (self w') = 5 ∧ _cols (self w') = 5 ∧
        emitted w' =
          emitted blinker_5x5 ++
          ((λ p, mkEmission (ref_of p) 0 0) <$> alive_cells (self blinker_5x5)) ∧
        (∀ p c, cell_at (self blinker_5x5) p = Some c →
           cell_at (self w') p =
             Some (Cell.mk 0 (if Cell._value c =? 1 then 0 else Cell._alive_time c))) ∧
        (duration_invariant (self blinker_5x5) →
           ∀ p c', cell_at (self w') p = Some c' → c' = Cell.mk 0 0) ∧
        (alive_cells (self blinker_5x5) = [] → w' = blinker_5x5) ∧
        Grid.reset w' = (Return tt, w').
Proof.
  apply (reset_kills_alive_cells blinker_5x5). by_evaluation.
Defined.

(** C7, as stated, fails: in a 1x1 grid whose dead cell was given the
    duration 5 through [set_time], [reset] does not touch the cell, which
    keeps the duration 5. *)
Lemma reset_counterexample :
  well_formed (self dead_with_duration_1x1) ∧
  cell_at (self dead_with_duration_1x1) (0, 0) = Some (Cell.mk 0 5) ∧
  Grid.reset dead_with_duration_1x1 = (Return tt, dead_with_duration_1x1) ∧
  ¬ reset_as_stated.
Proof.
  assert (well_formed (self dead_with_duration_1x1)) as Hwf by by_evaluation.
  split; [done|]. do 2 (split; [by_evaluation|]).
  intros Hclaim. destruct (Hclaim dead_with_duration_1x1 Hwf) as (w' & Hrun & Hcells).
  assert (w' = dead_with_duration_1x1) as ->.
  { vm_compute in Hrun. by injection Hrun as <-. }
  specialize (Hcells (0, 0) (Cell.mk 0 5) ltac:(by_evaluation)). discriminate Hcells.
Qed.

(** ** The Cell invariant along sequences of calls *)

Lemma good_pointwise g :
  good g ↔ well_shaped g ∧ ∀ ref c, deref g ref = Some c → cell_ok c.
Proof.
  unfold good, well_formed, cell_ok.
  rewrite binary_valued_pointwise, duration_invariant_pointwise. split.
  - intros [[Hs Hb] Hz]. split; [done|]. intros ref c Hc. split; eauto.
  - intros [Hs Hcells]. split; [split; [done|]|]; intros ref c Hc;
      by destruct (Hcells ref c Hc).
Qed.

Lemma length_py_range n : length (py_range 0 n) = Z.to_nat n.
Proof. unfold py_range. rewrite length_fmap, length_seq. lia. Qed.

Lemma foldl_snoc_replicate {A B : Type} (x : A) (xs : list B) acc :
  foldl (λ acc _, acc ++ [x]) acc xs = acc ++ replicate (length xs) x.
Proof.
  revert acc. induction xs as [|y xs IH]; intros acc; simpl.
  - by rewrite app_nil_r.
  - rewrite IH, <- app_assoc. done.
Qed.

Lemma init_cells rows cols :
  _cells (Grid.init rows cols) =
  replicate (Z.to_nat rows) (replicate (Z.to_nat cols) Cell.init).
Proof.
  unfold Grid.init; simpl.
  by rewrite (foldl_snoc_replicate Cell.init), (foldl_snoc_replicate _),
    !length_py_range.
Qed.

Lemma init_good rows cols : good (Grid.init rows cols).
Proof.
  apply good_pointwise. split.
  - split; rewrite init_cells.
    + by rewrite length_replicate.
    + apply Forall_replicate. by rewrite length_replicate.
  - intros ref c (cells_row & Hi & Hj)%deref_Some. rewrite init_cells in Hi.
    apply lookup_replicate in Hi as [-> _].
    apply lookup_replicate in Hj as [-> _]. split; [by left|done].
Qed.

Lemma store_good g ref c c' :
  good g → deref g ref = Some c → cell_ok c' → good (store ref c' g).
Proof.
  intros [Hs Hcells]%good_pointwise Hc Hok. apply good_pointwise.
  split; [by apply store_well_shaped|].
  intros ref' c'' Hc''. destruct (decide (ref = ref')) as [<-|Hne].
  - erewrite deref_store_eq in Hc'' by done. by simplify_eq.
  - rewrite deref_store_ne in Hc'' by done. by eapply Hcells.
Qed.

Lemma subscript_cases row col w :
  subscript row col w = (Raise IndexError, w) ∨
  ∃ ref c, subscript row col w = (Return ref, w) ∧ deref (self w) ref = Some c.
Proof.
  unfold subscript.
  destruct (py_norm_index (length (_cells (self w))) row) as [i|]; [|by left].
  destruct (_cells (self w) !! i) as [cells_row|] eqn:Hi; [|by left].
  destruct (py_norm_index (length cells_row) col) as [j|] eqn:Hj; [|by left].
  apply py_norm_index_lt in Hj.
  destruct (lookup_lt_is_Some_2 cells_row j Hj) as [c Hc].
  right. exists (i, j), c. split; [done|]. apply deref_Some. eauto.
Qed.

(** A method call through [get_cell]: the call raises on the way to the
    cell, or changes that one cell. *)
Lemma call_cell_cases {A : Type} (m : Cell.method A) row col w :
  (target w row col = None ∧ world_after (call_cell row col m) w = w) ∨
  ∃ ref c log, target w row col = Some c ∧ deref (self w) ref = Some c ∧
    world_after (call_cell row col m) w = mkWorld (store ref (after m c) (self w)) log.
Proof.
  unfold target, world_after, call_cell, Grid.get_cell.
  destruct (subscript_cases row col w) as [Hraise|(ref & c & Hsub & Hc)].
  - left. rewrite (bind_raise _ _ _ _ _ Hraise), Hraise. done.
  - right. exists ref, c. rewrite (bind_return _ _ _ _ _ Hsub), Hsub.
    rewrite (invoke_run _ _ c) by done. simpl. eauto.
Qed.

Lemma call_cell_good {A : Type} (m : Cell.method A) row col w :
  good (self w) →
  (∀ c, target w row col = Some c → cell_ok c → cell_ok (after m c)) →
  good (self (world_after (call_cell row col m) w)).
Proof.
  intros Hg Hm.
  destruct (call_cell_cases m row col w)
    as [[_ ->]|(ref & c & log & Ht & Hc & ->)]; [done|]. simpl.
  eapply store_good; [done..|]. apply Hm; [done|].
  apply good_pointwise in Hg as [_ Hcells]. by eapply Hcells.
Qed.

Lemma toggle_value_ok c : cell_ok (after Cell.toggle_value c).
Proof.
  unfold cell_ok, dead_means_zero, after; simpl.
  destruct (Cell._value c =? 0); simpl; split; auto; lia.
Qed.

Lemma update_grid_good w :
  good (self w) → good (self (world_after Grid.update_grid w)).
Proof.
  intros Hg. pose proof Hg as [Hwf Hinv].
  apply good_pointwise in Hg as [Hs Hcells].
  destruct (update_grid_run w Hwf) as [log Hrun].
  unfold world_after. rewrite Hrun. simpl.
  apply good_pointwise. split; [by apply commit_of_well_shaped|].
  intros ref c' Hc'.
  destruct (deref_cell_at _ _ _ (commit_of_well_shaped _ _ Hs) Hc')
    as (p & -> & Hp & Hcell).
  apply (proj1 (commit_of_in_bounds _ _ _ _)) in Hp.
  rewrite cell_at_commit_of in Hcell by done.
  destruct (cell_at (self w) p) as [c|] eqn:Hc; simplify_eq/=.
  rewrite (fate_of_at _ _ c Hc).
  apply cell_at_Some in Hc as [_ Hc]. apply Hcells in Hc as Hok.
  destruct Hok as [[Hv|Hv] Hz]; unfold fate_of_cell; rewrite Hv; simpl.
  - destruct (moore_count (self w) p.1 p.2 =? 3); simpl.
    + apply toggle_value_ok.
    + by split; [left|].
  - destruct ((moore_count (self w) p.1 p.2 =? 2)
              || (moore_count (self w) p.1 p.2 =? 3)); simpl.
    + unfold cell_ok, dead_means_zero, after; simpl. split; [by right|lia].
    + unfold cell_ok, dead_means_zero, after; simpl. rewrite Hv. simpl.
      split; [by left|done].
Qed.

Lemma reset_good w :
  good (self w) → good (self (world_after Grid.reset w)).
Proof.
  intros [Hs Hcells]%good_pointwise.
  destruct (reset_run w Hs) as [log Hrun].
  unfold world_after. rewrite Hrun. simpl.
  apply good_pointwise. split; [by apply modify_all_well_shaped|].
  intros ref c' Hc'.
  destruct (deref_cell_at _ _ _ (modify_all_well_shaped kill _ _ Hs) Hc')
    as (p & -> & Hp & Hcell).
  rewrite cell_at_reset in Hcell.
  destruct (cell_at (self w) p) as [c|] eqn:Hc; simplify_eq/=.
  apply cell_at_Some in Hc as [_ Hc]. apply Hcells in Hc.
  unfold kill. destruct (Cell._value c =? 1); [apply toggle_value_ok|done].
Qed.

Lemma restore_good row col value w :
  good (self w) → good (self (world_after (perform (op_restore row col value)) w)).
Proof.
  intros Hg. unfold perform, world_after, Grid.get_cell.
  destruct (subscript_cases row col w) as [Hraise|(ref & c & Hsub & Hc)].
  - by rewrite (bind_raise _ _ _ _ _ Hraise).
  - rewrite (bind_return _ _ _ _ _ Hsub).
    rewrite (bind_return _ _ _ _ _ (invoke_run (Cell.set_time value) _ c _ Hc)).
    erewrite invoke_run by (simpl; by eapply deref_store_eq).
    cbn [self snd]. rewrite store_store. eapply store_good; [done..|].
    apply (toggle_value_ok (Cell.set_time value c).1.2).
Qed.

Lemma perform_good w op :
  good (self w) → permitted w op = true → good (self (world_after (perform op) w)).
Proof.
  intros Hg Hop. destruct op as [| |row col|row col|row col value|row col|row col value];
    simpl in *.
  - by apply update_grid_good.
  - by apply reset_good.
  - apply call_cell_good; [done|]. intros c _ _. apply toggle_value_ok.
  - apply call_cell_good; [done|]. intros c Ht [_ Hz].
    unfold target_alive in Hop. rewrite Ht in Hop. apply Z.eqb_eq in Hop.
    unfold cell_ok, dead_means_zero, after; simpl. split; [by right|lia].
  - apply call_cell_good; [done|]. intros c Ht [Hv Hz].
    unfold target_alive in Hop. rewrite Ht in Hop.
    unfold cell_ok, dead_means_zero, after; simpl. split; [done|].
    apply orb_true_iff in Hop as [Halive%Z.eqb_eq|Hzero%Z.eqb_eq]; lia.
  - apply call_cell_good; [done|]. intros c _ [Hv _].
    unfold cell_ok, dead_means_zero, after; simpl. by split.
  - by apply restore_good.
Qed.

Lemma run_good ops w w' :
  good (self w) → run permitted ops w = Some w' → good (self w').
Proof.
  revert w. induction ops as [|op ops IH]; intros w Hg Hrun; simpl in Hrun.
  - by simplify_eq.
  - destruct (permitted w op) eqn:Hop; [|done].
    eapply IH; [|exact Hrun]. by apply perform_good.
Qed.

(** C6, as amended: from a freshly constructed grid, after any sequence of
    [update_grid], [reset], [toggle_value], [increase_time] on an alive cell,
    [reset_time], and [set_time] either on an alive cell, or with the value 0,
    or followed at once by [toggle_value] on the same cell, every cell with
    the value 0 has the alive time 0 (and the grid is well formed). *)
Theorem duration_invariant_kept (rows cols : Z) (ops : list operation) (w : World)
    (Hrun : run permitted ops (fresh rows cols) = Some w) :
  duration_invariant (self w) ∧ well_formed (self w).
Proof.
  destruct (run_good ops (fresh rows cols) w) as [Hwf Hinv]; [|done..].
  apply init_good.
Qed.

Lemma duration_invariant_kept_witness :
  duration_invariant (self example_world) ∧ well_formed (self example_world).
Proof.
  apply (duration_invariant_kept 2 2 example_calls). vm_compute. reflexivity.
Defined.

(** C6, as stated, fails: on a fresh 1x1 grid, [set_time(5)] on the dead cell
    leaves a cell with the value 0 and the alive time 5. *)
Lemma duration_invariant_counterexample :
  run respects_precondition [op_set_time 0 0 5] (fresh 1 1)
    = Some dead_with_duration_1x1 ∧
  cell_at (self dead_with_duration_1x1) (0, 0) = Some (Cell.mk 0 5) ∧
  ¬ duration_invariant (self dead_with_duration_1x1) ∧
  ¬ duration_invariant_as_stated.
Proof.
  assert (¬ duration_invariant (self dead_with_duration_1x1)) as Hbroken.
  { intros Hinv.
    pose proof (proj1 (duration_invariant_pointwise _) Hinv (0%nat, 0%nat)
                  (Cell.mk 0 5) eq_refl eq_refl) as Hz.
    discriminate Hz. }
  do 2 (split; [by_evaluation|]). split; [done|].
  intros Hclaim. apply Hbroken.
  apply (Hclaim 1 1 [op_set_time 0 0 5]). by_evaluation.
Qed.

(** ** The blinker *)

Lemma elem_of_alive_set g p :
  p ∈ alive_set g ↔ in_bounds g p.1 p.2 ∧ alive_at g p = 1.
Proof.
  unfold alive_set, alive_cells.
  rewrite elem_of_list_to_set, list_elem_of_filter, elem_of_all_coords.
  unfold is_alive. rewrite Is_true_true, Z.eqb_eq. tauto.
Qed.

Lemma indicator_spec cells p :
  (indicator cells p = 1 ↔ p ∈ cells) ∧ (indicator cells p = 0 ↔ p ∉ cells).
Proof. unfold indicator. case_bool_decide; split; split; try done; lia. Qed.

(** A well-formed grid with the alive set [cells] has the values of the
    unbounded grid with these alive cells, positions outside counting for 0. *)
Lemma alive_at_indicator g cells :
  binary_valued g → alive_set g = list_to_set cells →
  ∀ p, alive_at g p = indicator cells p.
Proof.
  intros Hb Hset p.
  assert (p ∈ alive_set g ↔ p ∈ cells) as Hiff
    by (by rewrite Hset, elem_of_list_to_set).
  rewrite elem_of_alive_set in Hiff.
  destruct (alive_at_binary g p Hb) as [H0|H1].
  - rewrite H0. symmetry. apply indicator_spec. intros Hin%Hiff. lia.
  - rewrite H1. symmetry. apply indicator_spec. apply Hiff. split; [|done].
    destruct (decide (in_bounds g p.1 p.2)) as [|Hout]; [done|].
    rewrite alive_at_outside in H1 by done. lia.
Qed.

Lemma next_cell_value c what :
  Cell._value (next_cell c what) =
  Cell._value (next_cell (Cell.mk (Cell._value c) 0) what).
Proof. destruct what; unfold next_cell, after; simpl; by destruct (Cell._value c =? 0). Qed.

(** One call of [update_grid] on a grid whose values are given by [values]:
    each cell takes the value the rule gives it from [values]. *)
Lemma update_grid_values w (values : Z * Z → Z) :
  well_formed (self w) →
  (∀ p, alive_at (self w) p = values p) →
  ∃ w', Grid.update_grid w = (Return tt, w') ∧
        well_formed (self w') ∧
        _rows (self w') = _rows (self w) ∧ _cols (self w') = _cols (self w) ∧
        ∀ p, in_bounds (self w) p.1 p.2 →
             alive_at (self w') p = next_value (values p) (neighbor_sum values p).
Proof.
  intros Hwf Hvalues. destruct (update_grid_run w Hwf) as [log Hrun].
  eexists. split; [exact Hrun|]. simpl.
  split; [by apply commit_of_well_formed|].
  split; [apply commit_of_rows|]. split; [apply commit_of_cols|].
  intros p Hp. unfold alive_at at 1. rewrite cell_at_commit_of by done.
  destruct Hwf as [Hs Hb].
  destruct (cell_at_is_Some (self w) p Hs Hp) as [c Hc]. rewrite Hc. simpl.
  rewrite next_cell_value. unfold next_value, fate_of.
  rewrite <- moore_count_sum by done.
  assert (alive_at (self w) p = Cell._value c) as Hv
    by (unfold alive_at; by rewrite Hc).
  rewrite <- Hv, Hvalues. unfold neighbor_sum. do 3 f_equal.
  generalize moore_offsets. intros ds.
  induction ds as [|d ds IH]; simpl; [done|]. by rewrite IH, Hvalues.
Qed.

Lemma alive_set_of_values g cells :
  (∀ p, p ∈ cells → in_bounds g p.1 p.2) →
  (∀ p, in_bounds g p.1 p.2 → alive_at g p = indicator cells p) →
  alive_set g = list_to_set cells.
Proof.
  intros Hcells Hvalues. apply set_eq. intros p.
  rewrite elem_of_alive_set, elem_of_list_to_set. split.
  - intros [Hp H1]. rewrite Hvalues in H1 by done. by apply indicator_spec.
  - intros Hin. split; [by apply Hcells|].
    rewrite Hvalues by (by apply Hcells). by apply indicator_spec.
Qed.

Lemma indicator_horizontal_0 row col :
  row ≠ 1 ∨ col < 1 ∨ 3 < col → indicator blinker_horizontal (row, col) = 0.
Proof.
  intros H. apply indicator_spec. unfold blinker_horizontal.
  rewrite !elem_of_cons, elem_of_nil. intros [[= -> ->]|[[= -> ->]|[[= -> ->]|[]]]]; lia.
Qed.

Lemma indicator_vertical_0 row col :
  col ≠ 2 ∨ row < 0 ∨ 2 < row → indicator blinker_vertical (row, col) = 0.
Proof.
  intros H. apply indicator_spec. unfold blinker_vertical.
  rewrite !elem_of_cons, elem_of_nil. intros [[= -> ->]|[[= -> ->]|[[= -> ->]|[]]]]; lia.
Qed.

(** On the unbounded grid, a generation turns the horizontal blinker into
    the vertical one. *)
Lemma horizontal_to_vertical p :
  next_value (indicator blinker_horizontal p)
             (neighbor_sum (indicator blinker_horizontal) p)
  = indicator blinker_vertical p.
Proof.
  destruct p as [row col]. blinker_window row col.
  unfold neighbor_sum, moore_offsets. cbn [foldr fst snd].
  rewrite !indicator_horizontal_0, indicator_vertical_0 by lia. reflexivity.
Qed.

(** And the vertical blinker into the horizontal one. *)
Lemma vertical_to_horizontal p :
  next_value (indicator blinker_vertical p)
             (neighbor_sum (indicator blinker_vertical) p)
  = indicator blinker_horizontal p.
Proof.
  destruct p as [row col]. blinker_window row col.
  unfold neighbor_sum, moore_offsets. cbn [foldr fst snd].
  rewrite !indicator_vertical_0, indicator_horizontal_0 by lia. reflexivity.
Qed.

Lemma blinker_step w (before after_ : list (Z * Z)) :
  well_formed (self w) →
  alive_set (self w) = list_to_set before →
  (∀ p, next_value (indicator before p) (neighbor_sum (indicator before) p)
        = indicator after_ p) →
  (∀ p, p ∈ after_ → in_bounds (self w) p.1 p.2) →
  ∃ w', Grid.update_grid w = (Return tt, w') ∧
        well_formed (self w') ∧
        _rows (self w') = _rows (self w) ∧ _cols (self w') = _cols (self w) ∧
        alive_set (self w') = list_to_set after_.
Proof.
  intros Hwf Hset Hlife Hin.
  destruct (update_grid_values w (indicator before) Hwf) as
    (w' & Hrun & Hwf' & Hrows & Hcols & Hvalues).
  { apply alive_at_indicator; [apply Hwf|done]. }
  exists w'. do 4 (split; [done|]).
  assert (∀ p, in_bounds (self w') p.1 p.2 ↔ in_bounds (self w) p.1 p.2) as Hsame.
  { intros p. unfold in_bounds. by rewrite Hrows, Hcols. }
  apply alive_set_of_values.
  - intros p Hp. apply Hsame. by apply Hin.
  - intros p Hp%Hsame. by rewrite Hvalues, Hlife.
Qed.

(** C1: on a well-formed grid of at least 5 rows and 5 columns whose alive
    cells are exactly (1,1), (1,2), (1,3), a call of [update_grid] returns and
    leaves exactly (0,2), (1,2), (2,2) alive, and a second call returns and
    leaves exactly (1,1), (1,2), (1,3) alive.  In each call the first phase
    returns the three lists read off the grid of before the call and leaves
    the world as it was, and the call is the second phase run on these lists:
    nothing read in the first phase was written by the second. *)
Theorem blinker_oscillates (w : World)
    (Hwf : well_formed (self w))
    (Hrows : 5 ≤ _rows (self w))
    (Hcols : 5 ≤ _cols (self w))
    (Hblinker : alive_set (self w) = {[ (1, 1); (1, 2); (1, 3) ]}) :
  ∃ w1 w2,
    Grid.update_grid w = (Return tt, w1) ∧
    alive_set (self w1) = {[ (0, 2); (1, 2); (2, 2) ]} ∧
    Grid.update_grid w1 = (Return tt, w2) ∧
    alive_set (self w2) = {[ (1, 1); (1, 2); (1, 3) ]} ∧
    (Grid.compute_changes w = (Return (changes_of (self w)), w) ∧
     Grid.update_grid w = Grid.commit_changes (changes_of (self w)) w) ∧
    (Grid.compute_changes w1 = (Return (changes_of (self w1)), w1) ∧
     Grid.update_grid w1 = Grid.commit_changes (changes_of (self w1)) w1).
Proof.
  assert (∀ g : GridObj, 5 ≤ _rows g → 5 ≤ _cols g →
            (∀ p, p ∈ blinker_vertical → in_bounds g p.1 p.2) ∧
            (∀ p, p ∈ blinker_horizontal → in_bounds g p.1 p.2)) as Hinside.
  { intros g ? ?. unfold blinker_vertical, blinker_horizontal, in_bounds.
    split; intros p; rewrite !elem_of_cons, elem_of_nil;
      intros [->|[->|[->|[]]]]; simpl; lia. }
  assert (∀ w0, well_formed (self w0) →
            Grid.compute_changes w0 = (Return (changes_of (self w0)), w0) ∧
            Grid.update_grid w0 = Grid.commit_changes (changes_of (self w0)) w0)
    as Hphases.
  { intros w0 Hwf0. pose proof (compute_changes_run w0 Hwf0) as Hcompute.
    split; [done|]. unfold Grid.update_grid.
    by rewrite (bind_return _ _ _ _ _ Hcompute). }
  assert (({[ (1, 1); (1, 2); (1, 3) ]} : gset (Z * Z))
          = list_to_set blinker_horizontal) as Ehor.
  { unfold blinker_horizontal. simpl. set_solver. }
  assert (({[ (0, 2); (1, 2); (2, 2) ]} : gset (Z * Z))
          = list_to_set blinker_vertical) as Ever.
  { unfold blinker_vertical. simpl. set_solver. }
  rewrite Ehor in *. rewrite Ever.
  destruct (blinker_step w blinker_horizontal blinker_vertical)
    as (w1 & Hrun1 & Hwf1 & Hrows1 & Hcols1 & Hset1);
    [done|done|apply horizontal_to_vertical|by apply Hinside|].
  destruct (blinker_step w1 blinker_vertical blinker_horizontal)
    as (w2 & Hrun2 & Hwf2 & Hrows2 & Hcols2 & Hset2);
    [done|done|apply vertical_to_horizontal|apply Hinside; lia|].
  exists w1, w2. repeat split; try done; by apply Hphases.
Qed.

Lemma blinker_oscillates_witness :
  ∃ w1 w2,
    Grid.update_grid blinker_5x5 = (Return tt, w1) ∧
    alive_set (self w1) = {[ (0, 2); (1, 2); (2, 2) ]} ∧
    Grid.update_grid w1 = (Return tt, w2) ∧
    alive_set (self w2) = {[ (1, 1); (1, 2); (1, 3) ]} ∧
    (Grid.compute_changes blinker_5x5
       = (Return (changes_of (self blinker_5x5)), blinker_5x5) ∧
     Grid.update_grid blinker_5x5
       = Grid.commit_changes (changes_of (self blinker_5x5)) blinker_5x5) ∧
    (Grid.compute_changes w1 = (Return (changes_of (self w1)), w1) ∧
     Grid.update_grid w1 = Grid.commit_changes (changes_of (self w1)) w1).
Proof.
  apply (blinker_oscillates blinker_5x5).
  - by_evaluation.
  - simpl. lia.
  - simpl. lia.
  - vm_compute. reflexivity.
Defined.

(** ** The constructor *)

Lemma filter_none {A : Type} (P : A → Prop) `{∀ x, Decision (P x)} (xs : list A) :
  (∀ x, x ∈ xs → ¬ P x) → filter P xs = [].
Proof.
  induction xs as [|x xs IH]; intros Hnone; [done|].
  rewrite filter_cons, decide_False by (apply Hnone; by left).
  apply IH. intros y Hy. apply Hnone. by right.
Qed.

Lemma init_deref rows cols ref c :
  deref (Grid.init rows cols) ref = Some c → c = Cell.mk 0 0.
Proof.
  intros (cells_row & Hi & Hj)%deref_Some. rewrite init_cells in Hi.
  apply lookup_replicate in Hi as [-> _].
  by apply lookup_replicate in Hj as [-> _].
Qed.

(** X1: [Grid(rows, cols)] builds a well-formed grid that satisfies the Cell
    invariant, with no alive cell and no signal emitted; every coordinate of
    the grid holds a cell of its own in the state (0, 0); and when [rows] or
    [cols] is zero or negative the grid has no cell at all: every [get_cell]
    raises [IndexError]. *)
Theorem init_builds_dead_grid (rows cols : Z) :
  well_formed (Grid.init rows cols) ∧
  duration_invariant (Grid.init rows cols) ∧
  alive_cells (Grid.init rows cols) = [] ∧
  emitted (fresh rows cols) = [] ∧
  (∀ row col, 0 ≤ row < rows → 0 ≤ col < cols →
     Grid.get_cell row col (fresh rows cols)
       = (Return (ref_of (row, col)), fresh rows cols) ∧
     deref (Grid.init rows cols) (ref_of (row, col)) = Some (Cell.mk 0 0)) ∧
  (rows ≤ 0 ∨ cols ≤ 0 →
     ∀ row col, Grid.get_cell row col (fresh rows cols)
                = (Raise IndexError, fresh rows cols)).
Proof.
  destruct (init_good rows cols) as [Hwf Hinv].
  split; [done|]. split; [done|]. split; [|split; [done|split]].
  - apply filter_none. intros p _ Halive.
    unfold is_alive, alive_at in Halive.
    destruct (cell_at (Grid.init rows cols) p) as [c|] eqn:Hc; [|done].
    apply cell_at_Some in Hc as [_ Hc]. by rewrite (init_deref _ _ _ _ Hc) in Halive.
  - intros row col Hrow Hcol.
    assert (in_bounds (Grid.init rows cols) row col) as Hp by done.
    split; [apply subscript_in_bounds; [apply Hwf|done]|].
    destruct (deref_in_bounds (Grid.init rows cols) (row, col)) as [c Hc];
      [apply Hwf|done|].
    by rewrite Hc, (init_deref _ _ _ _ Hc).
  - intros Hempty row col. apply subscript_raises; [apply Hwf|]. simpl. lia.
Qed.

(** ** Calls that only read *)

Lemma reader_ret {A : Type} (a : A) : reader (mret a).
Proof. intros w. left. by exists a. Qed.

Lemma reader_attr {A : Type} (field : GridObj → A) : reader (attr field).
Proof. intros w. left. by eexists. Qed.

Lemma reader_bind {A B : Type} (m : Py A) (f : A → Py B) :
  reader m → (∀ a, reader (f a)) → reader (m ≫= f).
Proof.
  intros Hm Hf w. destruct (Hm w) as [[a Ha]|Hraise].
  - rewrite (bind_return _ _ _ _ _ Ha). apply Hf.
  - right. by rewrite (bind_raise _ _ _ _ _ Hraise).
Qed.

Lemma reader_if {A : Type} (b : bool) (m1 m2 : Py A) :
  reader m1 → reader m2 → reader (if b then m1 else m2).
Proof. by destruct b. Qed.

Lemma reader_subscript row col : reader (subscript row col).
Proof.
  intros w. destruct (subscript_cases row col w) as [?|(ref & c & Hsub & _)]; eauto.
Qed.

(** Reading the value of the cell found by a subscript. *)
Lemma reader_value_at row col :
  reader (cell ← subscript row col; invoke cell Cell.get_value).
Proof.
  intros w. destruct (subscript_cases row col w) as [Hraise|(ref & c & Hsub & Hc)].
  - right. by rewrite (bind_raise _ _ _ _ _ Hraise).
  - left. exists (Cell._value c).
    rewrite (bind_return _ _ _ _ _ Hsub). by apply invoke_get_value.
Qed.

Lemma reader_add_value count row col : reader (Grid.add_value count row col).
Proof.
  intros w. destruct (subscript_cases row col w) as [Hraise|(ref & c & Hsub & Hc)];
    unfold Grid.add_value.
  - right. by rewrite (bind_raise _ _ _ _ _ Hraise).
  - left. exists (count + Cell._value c).
    rewrite (bind_return _ _ _ _ _ Hsub).
    by rewrite (bind_return _ _ _ _ _ (invoke_get_value _ _ _ Hc)).
Qed.

Lemma reader_add_left_right count row col :
  reader (Grid.add_left_right count row col).
Proof.
  unfold Grid.add_left_right. apply reader_bind.
  - apply reader_if; [apply reader_add_value|apply reader_ret].
  - intros count'. apply reader_bind; [apply reader_attr|].
    intros cols. apply reader_if; [apply reader_add_value|apply reader_ret].
Qed.

Lemma reader_alive_neighbors row col : reader (Grid.alive_neighbors row col).
Proof.
  unfold Grid.alive_neighbors. apply reader_bind.
  - apply reader_if; [|apply reader_ret].
    apply reader_bind; [apply reader_add_value|].
    intros count. apply reader_add_left_right.
  - intros count. apply reader_bind; [apply reader_attr|].
    intros rows. apply reader_bind.
    + apply reader_if; [|apply reader_ret].
      apply reader_bind; [apply reader_add_value|].
      intros count'. apply reader_add_left_right.
    + intros count'. apply reader_add_left_right.
Qed.

(** X2: whatever the grid and whatever the arguments, in the grid or not,
    [alive_neighbors] returns a count or raises [IndexError], and in both
    cases it leaves every cell, every attribute and the emitted signals as
    they were. *)
Theorem alive_neighbors_only_reads (row col : Z) (w : World) :
  (∃ count, Grid.alive_neighbors row col w = (Return count, w)) ∨
  Grid.alive_neighbors row col w = (Raise IndexError, w).
Proof.
  destruct (reader_alive_neighbors row col w) as [[count Hcount]|Hraise].
  - left. by exists count.
  - by right.
Qed.

(** ** Method calls on one cell *)

(** [self._cells[row][col].m()] at a coordinate of the grid: the cell
    changes by [m] and the signals of [m] are emitted. *)
Lemma method_body_emits_at (m : Cell.method unit) w p :
  well_shaped (self w) → in_bounds (self w) p.1 p.2 →
  (cell ← subscript p.1 p.2; invoke cell m) w =
    (Return tt,
     mkWorld (modify (ref_of p) (after m) (self w))
             (emitted w ++
              match deref (self w) (ref_of p) with
              | Some c => (λ s, mkEmission (ref_of p) s.1 s.2) <$> (m c).2
              | None => []
              end)).
Proof.
  intros Hg Hp. replace (p.1, p.2) with p by (by destruct p).
  rewrite (bind_return _ _ _ _ _ (subscript_in_bounds _ _ _ Hg Hp)).
  replace (p.1, p.2) with p by (by destruct p).
  destruct (deref_in_bounds (self w) p Hg Hp) as [c Hc].
  rewrite (invoke_run _ _ c) by done. unfold modify, after.
  rewrite Hc. by destruct (m c).1.1.
Qed.

Lemma toggle_value_twice (c : Cell.t) :
  Cell._value c = 0 ∨ Cell._value c = 1 →
  after Cell.toggle_value (after Cell.toggle_value c) = Cell.mk (Cell._value c) 0.
Proof. intros Hbinary. unfold after; simpl. by destruct Hbinary as [-> | ->]. Qed.

Lemma cell_at_store_eq g p c c0 :
  cell_at g p = Some c0 → cell_at (store (ref_of p) c g) p = Some c.
Proof.
  intros [Hp Hc]%cell_at_Some. unfold cell_at, in_boundsb. simpl.
  fold (in_boundsb g p). rewrite (proj2 (in_boundsb_spec g p) Hp).
  by eapply deref_store_eq.
Qed.

Lemma cell_at_store_ne g p q c :
  in_bounds g p.1 p.2 → p ≠ q → cell_at (store (ref_of p) c g) q = cell_at g q.
Proof.
  intros Hp Hne. unfold cell_at, in_boundsb. simpl. fold (in_boundsb g q).
  destruct (in_boundsb g q) eqn:Hq; [|done]. apply in_boundsb_spec in Hq.
  apply deref_store_ne. intros Heq. apply Hne. by apply (ref_of_inj g).
Qed.

(** X4: two calls of [toggle_value] in a row on the cell at a coordinate of
    the grid, its value being 0 or 1 and its alive time within the range of a
    C int: both return, the value is back and the alive time is 0, so that an
    alive cell toggled off and on again has lost its alive time; two signals
    are emitted, the flipped state and then the final one, and both arrive
    as they were emitted; no other cell changes. *)
Theorem toggle_twice_loses_duration (w : World) (row col : Z) (c : Cell.t)
    (Hshape : well_shaped (self w))
    (Hcell : cell_at (self w) (row, col) = Some c)
    (Hbinary : Cell._value c = 0 ∨ Cell._value c = 1)
    (Hfit : fits_c_int (Cell._alive_time c)) :
  let signals :=
    [mkEmission (ref_of (row, col)) (1 - Cell._value c)
                (if Cell._value c =? 0 then Cell._alive_time c else 0);
     mkEmission (ref_of (row, col)) (Cell._value c) 0] in
  ∃ w', (call_cell row col Cell.toggle_value;;
         call_cell row col Cell.toggle_value) w = (Return tt, w') ∧
        cell_at (self w') (row, col) = Some (Cell.mk (Cell._value c) 0) ∧
        emitted w' = emitted w ++ signals ∧
        Forall arrives_as_emitted signals ∧
        ∀ p, p ≠ (row, col) → cell_at (self w') p = cell_at (self w) p.
Proof.
  apply cell_at_Some in Hcell as Hp. destruct Hp as [Hp Hc]. simpl in Hp.
  pose proof (method_body_emits_at Cell.toggle_value w (row, col) Hshape Hp) as H1.
  unfold call_cell, Grid.get_cell. cbn [fst snd] in H1.
  rewrite (bind_return _ _ _ _ _ H1).
  match goal with |- context [mkWorld ?g1 ?log1] =>
    pose proof (method_body_emits_at Cell.toggle_value (mkWorld g1 log1) (row, col))
      as H2
  end.
  cbn [fst snd self emitted] in H2. rewrite H2; clear H1 H2.
  - eexists. split; [reflexivity|]. cbn [self emitted].
    unfold modify. rewrite Hc. erewrite deref_store_eq by done.
    rewrite store_store, toggle_value_twice by done. split; [|split; [|split]].
    + by erewrite cell_at_store_eq.
    + rewrite <- app_assoc. f_equal. unfold after. simpl.
      by destruct Hbinary as [-> | ->].
    + unfold fits_c_int in Hfit.
      repeat apply Forall_cons_2; [| |apply Forall_nil_2];
        unfold arrives_as_emitted, fits_c_int; simpl;
        destruct Hbinary as [-> | ->]; simpl; lia.
    + intros p Hne. by apply cell_at_store_ne.
  - by apply modify_well_shaped.
  - unfold in_bounds. by rewrite modify_rows, modify_cols.
Qed.

Lemma toggle_twice_loses_duration_witness :
  ∃ w', (call_cell 2 2 Cell.toggle_value;;
         call_cell 2 2 Cell.toggle_value) block_4x4 = (Return tt, w') ∧
        cell_at (self w') (2, 2) = Some (Cell.mk 1 0) ∧
        emitted w' = emitted block_4x4 ++
          [mkEmission (ref_of (2, 2)) (1 - 1) 0; mkEmission (ref_of (2, 2)) 1 0] ∧
        Forall arrives_as_emitted
          [mkEmission (ref_of (2, 2)) (1 - 1) 0; mkEmission (ref_of (2, 2)) 1 0] ∧
        ∀ p, p ≠ (2, 2) → cell_at (self w') p = cell_at (self block_4x4) p.
Proof.
  apply (toggle_twice_loses_duration block_4x4 2 2 (Cell.mk 1 7)).
  - apply (bool_decide_unpack _). vm_compute. exact I.
  - by_evaluation.
  - right. reflexivity.
  - by_evaluation.
Defined.

(** X5: the restore pairing, [set_time(value)] then [toggle_value()] on the
    cell [get_cell] hands out at a coordinate of the grid, [value] within
    the range of a C int: it returns; a dead cell ends alive with the alive
    time [value], an alive cell ends as (0, 0); exactly one signal is
    emitted, carrying the state the cell ends in, and it arrives as it was
    emitted; no other cell changes. *)
Theorem restore_sets_duration (w : World) (row col value : Z) (c : Cell.t)
    (Hshape : well_shaped (self w))
    (Hcell : cell_at (self w) (row, col) = Some c)
    (Hfit : fits_c_int value) :
  let restored := if Cell._value c =? 0 then Cell.mk 1 value else Cell.mk 0 0 in
  let signal := mkEmission (ref_of (row, col)) (Cell._value restored)
                           (Cell._alive_time restored) in
  ∃ w', perform (op_restore row col value) w = (Return tt, w') ∧
        cell_at (self w') (row, col) = Some restored ∧
        emitted w' = emitted w ++ [signal] ∧
        arrives_as_emitted signal ∧
        ∀ p, p ≠ (row, col) → cell_at (self w') p = cell_at (self w) p.
Proof.
  apply cell_at_Some in Hcell as Hp. destruct Hp as [Hp Hc]. simpl in Hp.
  unfold perform, Grid.get_cell.
  rewrite (bind_return _ _ _ _ _ (subscript_in_bounds _ _ _ Hshape Hp)).
  rewrite (bind_return _ _ _ _ _ (invoke_run (Cell.set_time value) _ c _ Hc)).
  erewrite invoke_run by (simpl; by eapply deref_store_eq).
  eexists. split; [reflexivity|]. cbn [self emitted snd fst].
  rewrite store_store, app_nil_r. split; [|split; [|split]].
  - erewrite cell_at_store_eq by done. f_equal. simpl.
    by destruct (Cell._value c =? 0).
  - f_equal. simpl. by destruct (Cell._value c =? 0).
  - unfold fits_c_int in Hfit. unfold arrives_as_emitted, fits_c_int.
    destruct (Cell._value c =? 0); simpl; lia.
  - intros p Hne. by apply cell_at_store_ne.
Qed.

Lemma restore_sets_duration_witness :
  ∃ w', perform (op_restore 0 1 6) blinker_5x5 = (Return tt, w') ∧
        cell_at (self w') (0, 1) = Some (Cell.mk 1 6) ∧
        emitted w' = emitted blinker_5x5 ++ [mkEmission (ref_of (0, 1)) 1 6] ∧
        arrives_as_emitted (mkEmission (ref_of (0, 1)) 1 6) ∧
        ∀ p, p ≠ (0, 1) → cell_at (self w') p = cell_at (self blinker_5x5) p.
Proof.
  apply (restore_sets_duration blinker_5x5 0 1 6 (Cell.mk 0 0)).
  - apply (bool_decide_unpack _). vm_compute. exact I.
  - by_evaluation.
  - by_evaluation.
Defined.

(** ** What every sequence of calls keeps *)

Lemma store_shaped_as rows cols ref c c' w log :
  shaped_as rows cols w → deref (self w) ref = Some c →
  Cell._value c' = 0 ∨ Cell._value c' = 1 →
  shaped_as rows cols (mkWorld (store ref c' (self w)) log).
Proof.
  intros ([Hs Hb] & Hrows & Hcols) Hc Hc'. split; [|done]. simpl.
  split; [by apply store_well_shaped|].
  apply binary_valued_pointwise. intros ref' c'' Hc''.
  destruct (decide (ref = ref')) as [<-|Hne].
  - erewrite deref_store_eq in Hc'' by done. by simplify_eq.
  - rewrite deref_store_ne in Hc'' by done. by eapply binary_valued_deref.
Qed.

Lemma call_cell_shaped_as {A : Type} (m : Cell.method A) rows cols row col w :
  shaped_as rows cols w →
  (∀ c, Cell._value c = 0 ∨ Cell._value c = 1 →
        Cell._value (after m c) = 0 ∨ Cell._value (after m c) = 1) →
  shaped_as rows cols (world_after (call_cell row col m) w).
Proof.
  intros Hw Hm.
  destruct (call_cell_cases m row col w)
    as [[_ ->]|(ref & c & log & _ & Hc & ->)]; [done|].
  eapply store_shaped_as; [done..|]. apply Hm.
  destruct Hw as [[_ Hb] _]. by eapply binary_valued_deref.
Qed.

Lemma update_grid_shaped_as rows cols w :
  shaped_as rows cols w → shaped_as rows cols (world_after Grid.update_grid w).
Proof.
  intros (Hwf & Hrows & Hcols). destruct (update_grid_run w Hwf) as [log Hrun].
  unfold world_after. rewrite Hrun. split; simpl.
  - by apply commit_of_well_formed.
  - by rewrite commit_of_rows, commit_of_cols.
Qed.

Lemma kill_binary c :
  Cell._value c = 0 ∨ Cell._value c = 1 →
  Cell._value (kill c) = 0 ∨ Cell._value (kill c) = 1.
Proof.
  intros Hc. unfold kill. destruct (Cell._value c =? 1); [|done].
  apply after_toggle_binary.
Qed.

Lemma reset_shaped_as rows cols w :
  shaped_as rows cols w → shaped_as rows cols (world_after Grid.reset w).
Proof.
  intros ([Hs Hb] & Hrows & Hcols). unfold world_after.
  rewrite (reset_run_emits w Hs). simpl. split; simpl.
  - split; [by apply modify_all_well_shaped|].
    apply binary_valued_pointwise. intros ref c' Hc'.
    destruct (deref_cell_at _ _ _ (modify_all_well_shaped kill _ _ Hs) Hc')
      as (p & -> & Hp & Hcell).
    rewrite cell_at_reset in Hcell.
    destruct (cell_at (self w) p) as [c|] eqn:Hc; simplify_eq/=.
    apply kill_binary. apply cell_at_Some in Hc as [_ Hc].
    by eapply binary_valued_deref.
  - by rewrite modify_all_rows, modify_all_cols.
Qed.

Lemma restore_shaped_as rows cols row col value w :
  shaped_as rows cols w →
  shaped_as rows cols (world_after (perform (op_restore row col value)) w).
Proof.
  intros Hw. unfold perform, world_after, Grid.get_cell.
  destruct (subscript_cases row col w) as [Hraise|(ref & c & Hsub & Hc)].
  - by rewrite (bind_raise _ _ _ _ _ Hraise).
  - rewrite (bind_return _ _ _ _ _ Hsub).
    rewrite (bind_return _ _ _ _ _ (invoke_run (Cell.set_time value) _ c _ Hc)).
    erewrite invoke_run by (simpl; by eapply deref_store_eq).
    cbn [self snd]. rewrite store_store. eapply store_shaped_as; [done..|].
    apply (after_toggle_binary (Cell.set_time value c).1.2).
Qed.

Lemma perform_shaped_as rows cols op w :
  shaped_as rows cols w → shaped_as rows cols (world_after (perform op) w).
Proof.
  intros Hw. destruct op as [| |row col|row col|row col value|row col|row col value];
    simpl.
  - by apply update_grid_shaped_as.
  - by apply reset_shaped_as.
  - apply call_cell_shaped_as; [done|]. intros c _. apply after_toggle_binary.
  - by apply call_cell_shaped_as.
  - by apply call_cell_shaped_as.
  - by apply call_cell_shaped_as.
  - by apply restore_shaped_as.
Qed.

Lemma reader_world_after {A : Type} (m : Py A) w :
  reader m → world_after m w = w.
Proof. intros Hm. unfold world_after. by destruct (Hm w) as [[a ->]| ->]. Qed.

Lemma perform_sleep op w :
  well_formed (self w) →
  _sleep (self (world_after (perform op) w)) = _sleep (self w).
Proof.
  intros Hwf. destruct op as [| |row col|row col|row col value|row col|row col value];
    simpl.
  - destruct (update_grid_run w Hwf) as [log Hrun].
    unfold world_after. rewrite Hrun. apply commit_of_sleep.
  - unfold world_after. rewrite (reset_run_emits w (proj1 Hwf)).
    apply modify_all_sleep.
  - by destruct (call_cell_cases Cell.toggle_value row col w)
      as [[_ ->]|(ref & c & log & _ & _ & ->)].
  - by destruct (call_cell_cases Cell.increase_time row col w)
      as [[_ ->]|(ref & c & log & _ & _ & ->)].
  - by destruct (call_cell_cases (Cell.set_time value) row col w)
      as [[_ ->]|(ref & c & log & _ & _ & ->)].
  - by destruct (call_cell_cases Cell.reset_time row col w)
      as [[_ ->]|(ref & c & log & _ & _ & ->)].
  - unfold perform, world_after, Grid.get_cell.
    destruct (subscript_cases row col w) as [Hraise|(ref & c & Hsub & Hc)].
    + by rewrite (bind_raise _ _ _ _ _ Hraise).
    + rewrite (bind_return _ _ _ _ _ Hsub).
      rewrite (bind_return _ _ _ _ _ (invoke_run (Cell.set_time value) _ c _ Hc)).
      by erewrite invoke_run by (simpl; by eapply deref_store_eq).
Qed.

Lemma reader_call_cell {A : Type} (m : Cell.method A) row col :
  (∀ c, (m c).1.2 = c ∧ (m c).2 = []) → reader (call_cell row col m).
Proof.
  intros Hm w. unfold call_cell, Grid.get_cell.
  destruct (subscript_cases row col w) as [Hraise|(ref & c & Hsub & Hc)].
  - right. by rewrite (bind_raise _ _ _ _ _ Hraise).
  - left. exists (m c).1.1. rewrite (bind_return _ _ _ _ _ Hsub).
    rewrite (invoke_run _ _ c) by done. destruct (Hm c) as [-> ->].
    rewrite store_id, app_nil_r by done. by destruct w.
Qed.

Lemma world_after_call_keeps rows cols c w :
  shaped_as rows cols w →
  shaped_as rows cols (world_after_call c w) ∧
  _sleep (self (world_after_call c w)) = last_interval [c] (_sleep (self w)).
Proof.
  intros Hw. destruct c as [op|fps| | |row col|row col|row col|row col]; simpl.
  - split; [by apply perform_shaped_as|]. apply perform_sleep, Hw.
  - unfold world_after, Grid.set_sleep.
    by destruct (PyFloat.one_over fps) as [x|e].
  - by rewrite reader_world_after by apply reader_attr.
  - rewrite reader_world_after; [done|].
    apply reader_bind; [apply reader_attr|]. intros rows'.
    apply reader_bind; [apply reader_attr|]. intros cols'. apply reader_ret.
  - by rewrite reader_world_after by apply reader_subscript.
  - by rewrite reader_world_after by (by apply reader_call_cell).
  - by rewrite reader_world_after by (by apply reader_call_cell).
  - by rewrite reader_world_after by apply reader_alive_neighbors.
Qed.

(** X6: from a freshly constructed grid and after any sequence of calls of
    the public interface, made with any arguments and in any order, raising or
    not, the grid is well formed, [get_dimensions] returns the dimensions
    given to the constructor, and the tick interval is the default one or the
    one stored by the last [set_sleep] that returned: no other call touches
    it. *)
Theorem calls_keep_shape (rows cols : Z) (cs : list call) :
  well_formed (self (run_calls cs (fresh rows cols))) ∧
  Grid.get_dimensions (run_calls cs (fresh rows cols))
    = (Return (rows, cols), run_calls cs (fresh rows cols)) ∧
  _sleep (self (run_calls cs (fresh rows cols)))
    = last_interval cs PyFloat.lit_0_03.
Proof.
  assert (∀ w, shaped_as rows cols w →
            shaped_as rows cols (run_calls cs w) ∧
            _sleep (self (run_calls cs w)) = last_interval cs (_sleep (self w)))
    as Hkeeps.
  { induction cs as [|c cs IH]; intros w Hw; [done|].
    destruct (world_after_call_keeps rows cols c w Hw) as [Hw' Hsleep].
    destruct (IH _ Hw') as [Hw'' Hsleep'']. split; [done|].
    unfold run_calls, last_interval in *. simpl in *.
    by rewrite Hsleep'', Hsleep. }
  destruct (Hkeeps (fresh rows cols)) as [(Hwf & Hrows & Hcols) Hsleep].
  { split; [apply init_good|done]. }
  split; [done|]. split; [|done].
  unfold Grid.get_dimensions.
  rewrite (bind_return _ _ _ (_rows _) _) by done.
  rewrite (bind_return _ _ _ (_cols _) _) by done.
  by rewrite Hrows, Hcols.
Qed.

(** ** The rule of the game, for all cells at once *)

(** The value of a cell after the second phase, by the rule of the game. *)
Lemma is_alive_commit_of g p :
  well_formed g → in_bounds g p.1 p.2 →
  is_alive (commit_of (changes_of g) g) p = conway_alive g p.
Proof.
  intros Hwf Hin.
  destruct (cell_at_is_Some g p (proj1 Hwf) Hin) as [c Hc].
  unfold conway_alive, is_alive, alive_at.
  rewrite cell_at_commit_of, Hc by done. rewrite (fate_of_at _ _ c Hc). simpl.
  apply cell_at_Some in Hc as [_ Hd].
  destruct (binary_valued_deref _ _ _ (proj2 Hwf) Hd) as [Hv|Hv];
    unfold fate_of_cell; rewrite Hv; simpl.
  - destruct (moore_count g p.1 p.2 =? 3) eqn:H3; simpl;
      unfold after; simpl; by rewrite Hv.
  - destruct (Z.eqb_spec (moore_count g p.1 p.2) 2) as [->|H2]; simpl;
      [unfold after; simpl; by rewrite Hv|].
    destruct (moore_count g p.1 p.2 =? 3); simpl;
      unfold after; simpl; by rewrite Hv.
Qed.

(** X7: one call of [update_grid] on a well-formed grid returns, and every
    cell of the grid is alive after the call exactly when it had 3 alive
    neighbours before the call, or was alive with 2: all cells move at once,
    by the rule of the Game of Life read on the grid of before the call. *)
Theorem update_grid_is_conway (w : World) (row col : Z)
    (Hwf : well_formed (self w))
    (Hin : in_bounds (self w) row col) :
  ∃ w', Grid.update_grid w = (Return tt, w') ∧
        is_alive (self w') (row, col) =
          (moore_count (self w) row col =? 3)
          || (is_alive (self w) (row, col) && (moore_count (self w) row col =? 2)).
Proof.
  destruct (update_grid_run w Hwf) as [log Hrun].
  eexists. split; [exact Hrun|]. cbn [self].
  by rewrite (is_alive_commit_of (self w) (row, col)).
Qed.

Lemma update_grid_is_conway_witness :
  ∃ w', Grid.update_grid blinker_5x5 = (Return tt, w') ∧
        is_alive (self w') (2, 2) =
          (moore_count (self blinker_5x5) 2 2 =? 3)
          || (is_alive (self blinker_5x5) (2, 2)
              && (moore_count (self blinker_5x5) 2 2 =? 2)).
Proof.
  apply (update_grid_is_conway blinker_5x5 2 2); by_evaluation.
Defined.

(** X8: a dead cell that does not have exactly 3 alive neighbours is left by
    [update_grid] exactly as it was, alive time included: the call neither
    resets nor counts the alive time of a cell that stays dead. *)
Theorem update_grid_leaves_dead_cell (w : World) (row col : Z) (c : Cell.t)
    (Hwf : well_formed (self w))
    (Hcell : cell_at (self w) (row, col) = Some c)
    (Hdead : Cell._value c = 0)
    (Hcount : moore_count (self w) row col ≠ 3) :
  ∃ w', Grid.update_grid w = (Return tt, w') ∧
        cell_at (self w') (row, col) = Some c.
Proof.
  destruct (update_grid_cell w (row, col) c Hwf Hcell) as (w' & Hrun & _ & Hc').
  exists w'. split; [done|]. rewrite Hc'. f_equal.
  rewrite (fate_of_at _ _ c Hcell). simpl. unfold fate_of_cell.
  rewrite Hdead. apply Z.eqb_neq in Hcount. by rewrite Hcount.
Qed.

Lemma update_grid_leaves_dead_cell_witness :
  ∃ w', Grid.update_grid dead_with_duration_1x1 = (Return tt, w') ∧
        cell_at (self w') (0, 0) = Some (Cell.mk 0 5).
Proof.
  apply (update_grid_leaves_dead_cell dead_with_duration_1x1 0 0 (Cell.mk 0 5)).
  - by_evaluation.
  - by_evaluation.
  - reflexivity.
  - vm_compute. discriminate.
Defined.

Lemma all_dead_alive_at g p :
  alive_cells g = [] → binary_valued g → alive_at g p = 0.
Proof.
  intros Hnil Hb. unfold alive_at.
  destruct (cell_at g p) as [c|] eqn:Hc; [|done].
  pose proof (alive_cells_nil g p c Hnil Hc) as Hne.
  apply cell_at_Some in Hc as [_ Hc].
  destruct (binary_valued_deref _ _ _ Hb Hc); [done|lia].
Qed.

Lemma all_dead_changes g :
  alive_cells g = [] → binary_valued g → changes_of g = mkChanges [] [] [].
Proof.
  intros Hnil Hb.
  assert (∀ p, fate_of g p = Stays) as Hstays.
  { intros p. unfold fate_of. rewrite all_dead_alive_at by done.
    rewrite <- moore_count_sum by done.
    assert (∀ ds, foldr (λ d n, alive_at g (p.1 + d.1, p.2 + d.2) + n) 0 ds = 0)
      as ->; [|done].
    induction ds as [|d ds IH]; simpl; [done|].
    by rewrite IH, all_dead_alive_at. }
  unfold changes_of.
  rewrite !filter_none; [done|..]; intros p _; by rewrite Hstays.
Qed.

(** X9: on a well-formed grid with no alive cell, [update_grid] returns and
    leaves the world exactly as it was: no cell changes and no signal is
    emitted.  So it is after [reset]: [reset] followed by [update_grid] leaves
    the world [reset] left. *)
Theorem update_grid_on_dead_grid (w : World)
    (Hwf : well_formed (self w)) :
  (alive_cells (self w) = [] → Grid.update_grid w = (Return tt, w)) ∧
  ∃ w', Grid.reset w = (Return tt, w') ∧ Grid.update_grid w' = (Return tt, w').
Proof.
  assert (∀ w0, well_formed (self w0) → alive_cells (self w0) = [] →
                Grid.update_grid w0 = (Return tt, w0)) as Hdead.
  { intros w0 Hwf0 Hnil. unfold Grid.update_grid.
    rewrite (bind_return _ _ _ _ _ (compute_changes_run w0 Hwf0)).
    by rewrite all_dead_changes by (done || apply Hwf0). }
  split; [by apply Hdead|].
  pose proof (reset_run_emits w (proj1 Hwf)) as Hrun.
  eexists. split; [exact Hrun|].
  pose proof (reset_shaped_as _ _ w (conj Hwf (conj eq_refl eq_refl))) as [Hwf' _].
  unfold world_after in Hwf'. rewrite Hrun in Hwf'. simpl in Hwf'.
  apply Hdead; simpl; [done|].
  apply filter_none. intros p _ Halive.
  unfold is_alive, alive_at in Halive. rewrite cell_at_reset in Halive.
  destruct (cell_at (self w) p) as [c|] eqn:Hc; [|done]. simpl in Halive.
  apply cell_at_Some in Hc as [_ Hc].
  rewrite kill_dead in Halive by (by eapply binary_valued_deref; [apply Hwf|]).
  done.
Qed.

Lemma update_grid_on_dead_grid_witness :
  Grid.update_grid (fresh 3 4) = (Return tt, fresh 3 4).
Proof.
  assert (well_formed (self (fresh 3 4))) as Hwf by by_evaluation.
  apply (proj1 (update_grid_on_dead_grid (fresh 3 4) Hwf)). by_evaluation.
Defined.

(** ** Counting on a grid whose cells are all alive *)

Lemma filter_all {A : Type} (P : A → Prop) `{∀ x, Decision (P x)} (xs : list A) :
  filter P xs = xs → ∀ x, x ∈ xs → P x.
Proof.
  induction xs as [|y xs IH]; intros Hall x Hx; [by apply elem_of_nil in Hx|].
  rewrite filter_cons in Hall. destruct (decide (P y)) as [Hy|Hy].
  - injection Hall as Hall. apply elem_of_cons in Hx as [->|Hx]; [done|].
    by apply IH.
  - pose proof (length_filter P xs) as Hlen.
    rewrite Hall in Hlen. simpl in Hlen. lia.
Qed.

(** X10: on a well-formed grid whose cells are all alive, [alive_neighbors]
    at a coordinate of the grid returns the number of positions among the
    eight around it that lie in the grid: every neighbour is counted once,
    the cell itself is not, and nothing is counted across an edge (8 inside,
    5 on an edge, 3 in a corner, 0 in a 1x1 grid). *)
Theorem alive_neighbors_counts_each_once (w : World) (row col : Z)
    (Hwf : well_formed (self w))
    (Hin : in_bounds (self w) row col)
    (Hall : alive_cells (self w) = all_coords (self w)) :
  Grid.alive_neighbors row col w =
    (Return (span row (_rows (self w)) * span col (_cols (self w)) - 1), w).
Proof.
  assert (∀ p, in_bounds (self w) p.1 p.2 → alive_at (self w) p = 1) as Halive.
  { intros p Hp%elem_of_all_coords.
    pose proof (filter_all _ _ Hall p Hp) as H1. by apply Z.eqb_eq, Is_true_true. }
  rewrite alive_neighbors_sum by (done || apply Hwf).
  unfold moore_offsets, span. cbn [foldr fst snd]. destruct Hin as [Hr Hc].
  do 2 f_equal.
  destruct (Z.ltb_spec 0 row), (Z.ltb_spec row (_rows (self w) - 1)),
    (Z.ltb_spec 0 col), (Z.ltb_spec col (_cols (self w) - 1));
    repeat match goal with
           | |- context [alive_at ?g ?p] =>
               first [ rewrite (Halive p) by (unfold in_bounds; simpl; lia)
                     | rewrite (alive_at_outside g p)
                         by (unfold in_bounds; simpl; lia) ]
           end; lia.
Qed.

Lemma alive_neighbors_counts_each_once_witness :
  Grid.alive_neighbors 1 0 all_alive_3x4 = (Return (3 * 2 - 1), all_alive_3x4).
Proof.
  apply (alive_neighbors_counts_each_once all_alive_3x4 1 0); by_evaluation.
Defined.

(** ** The signals of one generation *)

(** [self._cells[row][col].m()] at a coordinate of the grid, with the
    signals it emits. *)
Lemma method_body_emits (m : Cell.method unit) w p :
  well_shaped (self w) → in_bounds (self w) p.1 p.2 →
  (cell ← subscript p.1 p.2; invoke cell m) w =
    (Return tt,
     mkWorld (modify (ref_of p) (after m) (self w))
             (emitted w ++ method_signals m (ref_of p) (deref (self w) (ref_of p)))).
Proof.
  intros Hg Hp. replace (p.1, p.2) with p by (by destruct p).
  rewrite (bind_return _ _ _ _ _ (subscript_in_bounds _ _ _ Hg Hp)).
  replace (p.1, p.2) with p by (by destruct p).
  destruct (deref_in_bounds (self w) p Hg Hp) as [c Hc].
  rewrite (invoke_run _ _ c) by done. unfold modify, after, method_signals.
  rewrite Hc. by destruct (m c).1.1.
Qed.

(** The body of the last loop of [update_grid]: the signals are those of
    [toggle_value]. *)
Lemma death_body_emits w p :
  well_shaped (self w) → in_bounds (self w) p.1 p.2 →
  (cell ← subscript p.1 p.2;
   invoke cell Cell.toggle_value;;
   cell ← subscript p.1 p.2;
   invoke cell Cell.reset_time) w =
    (Return tt,
     mkWorld (modify (ref_of p)
                (λ c, after Cell.reset_time (after Cell.toggle_value c)) (self w))
             (emitted w ++
              method_signals Cell.toggle_value (ref_of p) (deref (self w) (ref_of p)))).
Proof.
  intros Hg Hp.
  rewrite (bind_return _ _ _ _ _ (subscript_in_bounds _ _ _ Hg Hp)).
  destruct (deref_in_bounds (self w) p Hg Hp) as [c Hc].
  replace (p.1, p.2) with p by (by destruct p).
  rewrite (bind_return _ _ _ _ _ (invoke_run Cell.toggle_value _ c _ Hc)).
  rewrite method_body_emits; cbn [self emitted].
  - rewrite (deref_store_eq _ _ _ c) by done.
    unfold method_signals at 1. cbn [Cell.reset_time snd fmap list_fmap].
    rewrite app_nil_r. unfold method_signals. rewrite Hc. do 2 f_equal.
    assert (store (ref_of p) (Cell.toggle_value c).1.2 (self w)
            = modify (ref_of p) (after Cell.toggle_value) (self w)) as ->.
    { unfold modify, after. by rewrite Hc. }
    apply modify_modify.
  - by apply store_well_shaped.
  - done.
Qed.

Lemma bucket_in_bounds g (what : fate) :
  Forall (λ p, in_bounds g p.1 p.2)
         (filter (λ p, fate_of g p = what) (all_coords g)).
Proof.
  apply Forall_forall. intros p [_ Hp]%list_elem_of_filter.
  by apply elem_of_all_coords.
Qed.

Lemma NoDup_bucket g (what : fate) :
  NoDup (ref_of <$> filter (λ p, fate_of g p = what) (all_coords g)).
Proof.
  eapply NoDup_ref_of; [apply bucket_in_bounds|].
  apply NoDup_filter, NoDup_all_coords.
Qed.

(** A cell filed under one fate is not in the list of another. *)
Lemma bucket_disjoint g (what other : fate) p :
  what ≠ other →
  p ∈ filter (λ p, fate_of g p = what) (all_coords g) →
  ref_of p ∉ ref_of <$> filter (λ p, fate_of g p = other) (all_coords g).
Proof.
  intros Hne [Hwhat Hp]%elem_of_bucket Hin.
  apply (elem_of_ref_of g) in Hin; [|apply bucket_in_bounds|done].
  apply elem_of_bucket in Hin as [Hother _]. congruence.
Qed.

Lemma list_bind_singletons {A B : Type} (f : A → list B) (g : A → B) xs :
  (∀ x, x ∈ xs → f x = [g x]) → xs ≫= f = g <$> xs.
Proof.
  induction xs as [|x xs IH]; intros Hfg; [done|].
  rewrite bind_cons, fmap_cons, Hfg by (by left). simpl. f_equal.
  apply IH. intros y Hy. apply Hfg. by right.
Qed.

(** The second phase with its signals, each read off the cell as the loop
    finds it. *)
Lemma commit_changes_emits w :
  well_shaped (self w) →
  Grid.commit_changes (changes_of (self w)) w =
    (Return tt,
     mkWorld (commit_of (changes_of (self w)) (self w))
       (emitted w ++
        (birth (changes_of (self w)) ≫= λ p,
           method_signals Cell.toggle_value (ref_of p) (deref (self w) (ref_of p))) ++
        (survival (changes_of (self w)) ≫= λ p,
           method_signals Cell.increase_time (ref_of p) (deref (self w) (ref_of p))) ++
        (death (changes_of (self w)) ≫= λ p,
           method_signals Cell.toggle_value (ref_of p) (deref (self w) (ref_of p))))).
Proof.
  intros Hg. set (g := self w). unfold Grid.commit_changes, commit_of, changes_of.
  cbn [birth survival death].
  set (born := filter (λ p, fate_of g p = Born) (all_coords g)).
  set (surviving := filter (λ p, fate_of g p = Survives) (all_coords g)).
  set (dying := filter (λ p, fate_of g p = Dies) (all_coords g)).
  assert (∀ g' ps, _rows g' = _rows g → _cols g' = _cols g →
            Forall (λ p, in_bounds g p.1 p.2) ps →
            Forall (λ p, in_bounds g' p.1 p.2) ps) as Hsame.
  { intros g' ps Hr Hc Hps. eapply Forall_impl; [exact Hps|].
    intros q. unfold in_bounds. by rewrite Hr, Hc. }
  rewrite (bind_return _ _ _ _ _
    (for_each_emits _ _ _ (method_body_emits Cell.toggle_value) born w Hg
       (bucket_in_bounds g Born) (NoDup_bucket g Born))).
  fold g. set (g1 := modify_all (after Cell.toggle_value) born g).
  rewrite (bind_return _ _ _ _ _
    (for_each_emits _ _ _ (method_body_emits Cell.increase_time) surviving
       (mkWorld g1 _)
       (modify_all_well_shaped _ _ _ Hg)
       (Hsame g1 _ (modify_all_rows _ _ _) (modify_all_cols _ _ _)
          (bucket_in_bounds g Survives))
       (NoDup_bucket g Survives))).
  cbn [self emitted]. set (g2 := modify_all (after Cell.increase_time) surviving g1).
  rewrite (for_each_emits _ _ _ death_body_emits dying (mkWorld g2 _)); cbn [self emitted].
  - do 2 f_equal. rewrite <- !app_assoc. do 2 f_equal. f_equal.
    + apply list_bind_ext_in. intros p Hp. f_equal.
      apply deref_modify_all_other. by apply (bucket_disjoint g Survives Born).
    + apply list_bind_ext_in. intros p Hp. f_equal. unfold g2, g1.
      rewrite !deref_modify_all_other; [done|..].
      * by apply (bucket_disjoint g Dies Born).
      * by apply (bucket_disjoint g Dies Survives).
  - by do 2 apply modify_all_well_shaped.
  - apply Hsame; [| |apply bucket_in_bounds].
    + unfold g2, g1. by rewrite !modify_all_rows.
    + unfold g2, g1. by rewrite !modify_all_cols.
  - apply NoDup_bucket.
Qed.

Lemma fate_value g p c :
  binary_valued g → cell_at g p = Some c →
  match fate_of g p with
  | Born | Stays => Cell._value c = 0
  | Survives | Dies => Cell._value c = 1
  end.
Proof.
  intros Hb Hc. rewrite (fate_of_at _ _ c Hc). unfold fate_of_cell.
  apply cell_at_Some in Hc as [_ Hc].
  destruct (binary_valued_deref _ _ _ Hb Hc) as [Hv|Hv]; rewrite Hv; simpl.
  - by destruct (moore_count g p.1 p.2 =? 3).
  - by destruct ((moore_count g p.1 p.2 =? 2) || (moore_count g p.1 p.2 =? 3)).
Qed.

(** The signals of the second phase, read off the grid of before the call. *)
Lemma signals_of_read g :
  well_formed g →
  (birth (changes_of g) ≫= λ p,
     method_signals Cell.toggle_value (ref_of p) (deref g (ref_of p))) ++
  (survival (changes_of g) ≫= λ p,
     method_signals Cell.increase_time (ref_of p) (deref g (ref_of p))) ++
  (death (changes_of g) ≫= λ p,
     method_signals Cell.toggle_value (ref_of p) (deref g (ref_of p)))
  = signals_of g.
Proof.
  intros [Hs Hb]. unfold signals_of, changes_of. cbn [birth survival death].
  assert (∀ (what : fate) p,
            p ∈ filter (λ p, fate_of g p = what) (all_coords g) →
            ∃ c, fate_of g p = what ∧ cell_at g p = Some c ∧
                 deref g (ref_of p) = Some c) as Hcell.
  { intros what p [Hwhat Hp]%elem_of_bucket.
    destruct (cell_at_is_Some g p Hs Hp) as [c Hc]. exists c.
    split; [done|]. split; [done|]. by apply cell_at_Some in Hc as [_ Hc]. }
  f_equal; [|f_equal]; apply list_bind_singletons; intros p Hp;
    destruct (Hcell _ p Hp) as (c & Hfate & Hc & Hd);
    pose proof (fate_value _ _ _ Hb Hc) as Hv; rewrite Hfate in Hv;
    unfold time_at; rewrite ?Hc, Hd; unfold method_signals; simpl;
    by rewrite Hv.
Qed.

(** The alive time at a coordinate of a grid whose alive times fit. *)
Lemma time_at_fits g p :
  times_fit g → fits_c_int (time_at g p) ∧ fits_c_int (time_at g p + 1).
Proof.
  intros Hfit. unfold time_at.
  destruct (cell_at g p) as [c|] eqn:Hc; [|unfold fits_c_int; lia].
  apply cell_at_Some in Hc as [_ Hc]. unfold deref in Hc.
  destruct (_cells g !! (ref_of p).1) as [cells_row|] eqn:Hrow; [|done].
  simpl in Hc.
  pose proof (proj1 (Forall_lookup _ _) Hfit _ _ Hrow) as Hfit_row.
  exact (proj1 (Forall_lookup _ _) Hfit_row _ _ Hc).
Qed.

(** X11: one call of [update_grid] on a well-formed grid whose alive times,
    and their successors, are within the range of a C int emits, after the
    signals emitted before, exactly one signal for each cell it changes and
    none for the others: first the born cells, as alive with the alive time
    they had; then the surviving cells, as alive with their alive time plus
    one; last the dying cells, as (0, 0); each group row by row.  Every one
    of these signals arrives as it was emitted. *)
Theorem update_grid_signals (w : World) (Hwf : well_formed (self w))
    (Hfit : times_fit (self w)) :
  ∃ w', Grid.update_grid w = (Return tt, w') ∧
        emitted w' = emitted w ++ signals_of (self w) ∧
        Forall arrives_as_emitted (signals_of (self w)).
Proof.
  unfold Grid.update_grid.
  rewrite (bind_return _ _ _ _ _ (compute_changes_run w Hwf)).
  rewrite (commit_changes_emits w (proj1 Hwf)). eexists. split; [reflexivity|].
  cbn [emitted]. split; [f_equal; by apply signals_of_read|].
  unfold signals_of. rewrite !Forall_app, !Forall_fmap.
  repeat split; apply Forall_forall; intros p _;
    destruct (time_at_fits (self w) p Hfit) as [Hnow Hnext];
    unfold arrives_as_emitted, fits_c_int in *; simpl; lia.
Qed.

Lemma update_grid_signals_witness :
  ∃ w', Grid.update_grid blinker_5x5 = (Return tt, w') ∧
        emitted w' = emitted blinker_5x5 ++ signals_of (self blinker_5x5) ∧
        Forall arrives_as_emitted (signals_of (self blinker_5x5)).
Proof. apply (update_grid_signals blinker_5x5); by_evaluation. Defined.

(** ** What observers are shown *)

Lemma signals_of_ok g : Forall signal_ok (signals_of g).
Proof.
  unfold signals_of. rewrite !Forall_app, !Forall_fmap.
  repeat split; apply Forall_forall; intros p _; unfold signal_ok; simpl;
    split; auto; lia.
Qed.

(** A method call through [get_cell], with the signals it emits. *)
Lemma call_cell_emits {A : Type} (m : Cell.method A) row col w :
  (target w row col = None ∧ world_after (call_cell row col m) w = w) ∨
  ∃ ref c, target w row col = Some c ∧ deref (self w) ref = Some c ∧
    world_after (call_cell row col m) w =
      mkWorld (store ref (after m c) (self w))
              (emitted w ++ ((λ s, mkEmission ref s.1 s.2) <$> (m c).2)).
Proof.
  unfold target, world_after, call_cell, Grid.get_cell.
  destruct (subscript_cases row col w) as [Hraise|(ref & c & Hsub & Hc)].
  - left. rewrite (bind_raise _ _ _ _ _ Hraise), Hraise. done.
  - right. exists ref, c. rewrite (bind_return _ _ _ _ _ Hsub), Hsub.
    by rewrite (invoke_run _ _ c).
Qed.

Lemma toggle_value_signal_ok ref c :
  Forall signal_ok ((λ s, mkEmission ref s.1 s.2) <$> (Cell.toggle_value c).2).
Proof.
  simpl. apply Forall_cons_2; [|apply Forall_nil_2]. unfold signal_ok. simpl.
  destruct (Cell._value c =? 0); simpl; split; auto; lia.
Qed.

Lemma perform_signals_ok op w :
  well_formed (self w) → respects_precondition w op = true →
  Forall signal_ok (emitted w) →
  Forall signal_ok (emitted (world_after (perform op) w)).
Proof.
  intros Hwf Hop Hlog.
  destruct op as [| |row col|row col|row col value|row col|row col value];
    simpl in *.
  - unfold world_after, Grid.update_grid.
    rewrite (bind_return _ _ _ _ _ (compute_changes_run w Hwf)).
    rewrite (commit_changes_emits w (proj1 Hwf)). cbn [snd emitted].
    rewrite signals_of_read by done. apply Forall_app. split; [done|].
    apply signals_of_ok.
  - unfold world_after. rewrite (reset_run_emits w (proj1 Hwf)). cbn [snd emitted].
    rewrite kill_signals_alive by (done || apply all_coords_in_bounds).
    apply Forall_app. split; [done|]. rewrite Forall_fmap.
    apply Forall_forall. intros p _. unfold signal_ok. simpl. auto.
  - destruct (call_cell_emits Cell.toggle_value row col w)
      as [[_ ->]|(ref & c & _ & _ & ->)]; [done|]. cbn [emitted].
    apply Forall_app. split; [done|]. apply toggle_value_signal_ok.
  - destruct (call_cell_emits Cell.increase_time row col w)
      as [[_ ->]|(ref & c & Ht & _ & ->)]; [done|]. cbn [emitted].
    apply Forall_app. split; [done|].
    unfold target_alive in Hop. rewrite Ht in Hop. apply Z.eqb_eq in Hop.
    simpl. apply Forall_cons_2; [|apply Forall_nil_2].
    unfold signal_ok. simpl. split; [by right|lia].
  - destruct (call_cell_emits (Cell.set_time value) row col w)
      as [[_ ->]|(ref & c & _ & _ & ->)]; [done|]. cbn [emitted].
    by rewrite app_nil_r.
  - destruct (call_cell_emits Cell.reset_time row col w)
      as [[_ ->]|(ref & c & _ & _ & ->)]; [done|]. cbn [emitted].
    by rewrite app_nil_r.
  - unfold world_after, Grid.get_cell.
    destruct (subscript_cases row col w) as [Hraise|(ref & c & Hsub & Hc)].
    + by rewrite (bind_raise _ _ _ _ _ Hraise).
    + rewrite (bind_return _ _ _ _ _ Hsub).
      rewrite (bind_return _ _ _ _ _ (invoke_run (Cell.set_time value) _ c _ Hc)).
      erewrite invoke_run by (simpl; by eapply deref_store_eq).
      cbn [snd emitted]. rewrite app_nil_r.
      apply Forall_app. split; [done|]. apply toggle_value_signal_ok.
Qed.

(** X12: from a freshly constructed grid, along any sequence of [update_grid],
    [reset], [toggle_value], [set_time] with any value on any cell,
    [reset_time], the restore pairing, and [increase_time] on alive cells,
    every signal emitted carries a value 0 or 1 and, with the value 0, the
    alive time 0: observers are never shown a dead cell with an alive time,
    even while [set_time] has left one in the grid. *)
Theorem signals_never_show_dead_duration (rows cols : Z) (ops : list operation)
    (w : World)
    (Hrun : run respects_precondition ops (fresh rows cols) = Some w) :
  Forall signal_ok (emitted w).
Proof.
  assert (∀ w0, well_formed (self w0) → Forall signal_ok (emitted w0) →
                run respects_precondition ops w0 = Some w →
                Forall signal_ok (emitted w)) as Hkept.
  { clear Hrun.
    induction ops as [|op ops IH]; intros w0 Hwf Hlog Hrun0; simpl in Hrun0.
    - by simplify_eq.
    - destruct (respects_precondition w0 op) eqn:Hop; [|done].
      apply (IH (world_after (perform op) w0)); [| |exact Hrun0].
      + by apply (perform_shaped_as (_rows (self w0)) (_cols (self w0))).
      + by apply perform_signals_ok. }
  apply (Hkept (fresh rows cols)); [apply init_good|apply Forall_nil_2|done].
Qed.

Lemma signals_never_show_dead_duration_witness :
  Forall signal_ok (emitted careless_world) ∧
  ¬ duration_invariant (self (world_after (perform (op_set_time 0 0 5)) (fresh 2 2))).
Proof.
  split.
  - apply (signals_never_show_dead_duration 2 2 careless_calls).
    vm_compute. reflexivity.
  - intros Hinv.
    pose proof (proj1 (duration_invariant_pointwise _) Hinv (0%nat, 0%nat)
                  (Cell.mk 0 5) eq_refl eq_refl) as Hz.
    discriminate Hz.
Defined.

(** ** The simulation loop *)

Lemma reads_ind (P : list Flags → Prop) :
  (∀ reads, (∀ reads', (length reads' < length reads)%nat → P reads') → P reads) →
  ∀ reads, P reads.
Proof.
  intros Hstep reads.
  assert (∀ n reads', (length reads' < n)%nat → P reads') as Hall.
  { induction n as [|n IH]; intros reads' Hlen; [lia|].
    apply Hstep. intros reads'' Hlen'. apply IH. lia. }
  apply (Hall (S (length reads))). lia.
Qed.

(** [time.sleep] takes [0.0], [-0.0], the initial interval [0.03] and
    [0.1]; it refuses [-0.1], NaN, an infinity and [1e10]. *)
Lemma time_sleep_accepts_examples :
  Forall (λ x, time_sleep_accepts x = true)
    [S754_zero false; S754_zero true; PyFloat.lit_0_03; PyFloat.lit_0_1] ∧
  Forall (λ x, time_sleep_accepts x = false)
    [S754_finite true 7205759403792794 (-56); S754_nan; S754_infinity false;
     S754_finite false 5242880000000000 (-19)].
Proof. split; repeat (apply Forall_cons_2; [by vm_compute|]); apply Forall_nil_2. Qed.

(** X13: while every read finds [game_event] cleared, the loop calls
    [update_grid] not once and leaves the world exactly as it was, whatever
    the grid and wherever the loop stands: a paused game does not advance.
    All the loop does between its reads is [sleep(0.1)], the float
    [7205759403792794 * 2^-56], never a sleep of the tick interval; it ends
    when a read finds the window closed, or when [sleep] refuses [0.1].
    While the window is there and [sleep] takes [0.1], the loop goes on for
    as long as it is read, sleeping once at every second read. *)
Theorem state_loop_paused (sleep_accepts : PyFloat.t → bool) (inner : bool)
    (reads : list Flags) (w : World)
    (Hpaused : Forall (λ r, game_event r = false) reads) :
  ∃ e did, state_loop_from sleep_accepts inner reads w = (e, w, did) ∧
           Forall (λ a, a = Slept (S754_finite false 7205759403792794 (-56)))
                  did ∧
           updates did = 0%nat ∧
           (e = Stopped ∨ e = Pending ∨ e = Rejected PyFloat.lit_0_1) ∧
           (e = Rejected PyFloat.lit_0_1 →
            sleep_accepts PyFloat.lit_0_1 = false) ∧
           (sleep_accepts PyFloat.lit_0_1 = true →
            Forall (λ r, window_event r = true) reads →
            e = Pending ∧
            length did = ((length reads + if inner then 1 else 0) / 2)%nat).
Proof.
  revert inner Hpaused. induction reads as [|r reads IH]; intros inner Hpaused.
  - exists Pending, []. simpl. repeat split; auto; try done.
    by destruct inner.
  - apply Forall_cons in Hpaused as [Hr Hpaused]. cbn [state_loop_from].
    rewrite Hr.
    destruct inner.
    + destruct (sleep_accepts PyFloat.lit_0_1) eqn:Hsleep.
      * destruct (IH false Hpaused)
          as (e & did & -> & Hslept & Hdid & He & Hrej & Hgoes).
        exists e, (Slept PyFloat.lit_0_1 :: did).
        split; [done|]. split; [by apply Forall_cons_2|].
        split; [done|]. split; [done|]. split; [done|].
        intros _ [_ Hwindow]%Forall_cons.
        destruct (Hgoes eq_refl Hwindow) as [-> Hlen]. split; [done|].
        cbn [length]. rewrite Hlen, Nat.add_0_r.
        replace (S (length reads) + 1)%nat with (length reads + 1 * 2)%nat
          by lia.
        rewrite Nat.div_add by done. lia.
      * exists (Rejected PyFloat.lit_0_1), [].
        split; [done|]. split; [apply Forall_nil_2|].
        split; [done|]. split; [auto|]. split; [done|]. intros [=].
    + destruct (window_event r) eqn:Hw.
      * destruct (IH true Hpaused)
          as (e & did & -> & Hslept & Hdid & He & Hrej & Hgoes).
        exists e, did. split; [done|]. split; [done|].
        split; [done|]. split; [done|]. split; [done|].
        intros Hsleep [_ Hwindow]%Forall_cons.
        destruct (Hgoes Hsleep Hwindow) as [-> Hlen]. split; [done|].
        cbn [length]. rewrite Hlen. f_equal. lia.
      * exists Stopped, [].
        split; [done|]. split; [apply Forall_nil_2|].
        split; [done|]. split; [auto|]. split; [done|].
        intros _ [Hwindow _]%Forall_cons. congruence.
Qed.

Lemma state_loop_paused_witness :
  ∃ e did, state_loop_from time_sleep_accepts false paused_reads blinker_5x5
             = (e, blinker_5x5, did) ∧
           Forall (λ a, a = Slept (S754_finite false 7205759403792794 (-56)))
                  did ∧
           updates did = 0%nat ∧
           (e = Stopped ∨ e = Pending ∨ e = Rejected PyFloat.lit_0_1) ∧
           (e = Rejected PyFloat.lit_0_1 →
            time_sleep_accepts PyFloat.lit_0_1 = false) ∧
           (time_sleep_accepts PyFloat.lit_0_1 = true →
            Forall (λ r, window_event r = true) paused_reads →
            e = Pending ∧
            length did = ((length paused_reads + 0) / 2)%nat).
Proof.
  apply (state_loop_paused time_sleep_accepts false paused_reads blinker_5x5).
  unfold paused_reads. repeat (apply Forall_cons_2; [reflexivity|]).
  apply Forall_nil_2.
Defined.

(** X14: once [window_event] is cleared and stays so, the loop returns within
    three reads, wherever it stands, without another call of [update_grid]
    and with the world as it was; from the test of the outer [while] it
    returns at the first read, having done nothing. *)
Theorem state_loop_stops (sleep_accepts : PyFloat.t → bool) (inner : bool)
    (reads : list Flags) (w : World)
    (Hclosed : Forall (λ r, window_event r = false) reads)
    (Hreads : (3 ≤ length reads)%nat)
    (Hsleep : sleep_accepts PyFloat.lit_0_1 = true) :
  (∃ did, state_loop_from sleep_accepts inner reads w = (Stopped, w, did) ∧
          updates did = 0%nat) ∧
  state_loop sleep_accepts reads w = (Stopped, w, []).
Proof.
  destruct reads as [|r1 [|r2 [|r3 reads]]]; simpl in Hreads; try lia.
  apply Forall_cons in Hclosed as [H1 Hclosed].
  apply Forall_cons in Hclosed as [H2 Hclosed].
  apply Forall_cons in Hclosed as [H3 Hclosed].
  split; [|unfold state_loop; simpl; by rewrite H1].
  destruct inner; simpl; rewrite ?H1, ?H2, ?H3, ?Hsleep.
  - destruct (game_event r1); simpl; rewrite ?H2, ?H3; eauto.
  - eauto.
Qed.

Lemma state_loop_stops_witness :
  (∃ did, state_loop_from time_sleep_accepts true closed_reads blinker_5x5
            = (Stopped, blinker_5x5, did) ∧ updates did = 0%nat) ∧
  state_loop time_sleep_accepts closed_reads blinker_5x5 = (Stopped, blinker_5x5, []).
Proof.
  apply (state_loop_stops time_sleep_accepts true closed_reads blinker_5x5).
  - unfold closed_reads. repeat (apply Forall_cons_2; [reflexivity|]).
    apply Forall_nil_2.
  - simpl. lia.
  - reflexivity.
Defined.

Lemma update_grid_step w :
  well_formed (self w) →
  Grid.update_grid w = (Return tt, world_after Grid.update_grid w) ∧
  well_formed (self (world_after Grid.update_grid w)) ∧
  _rows (self (world_after Grid.update_grid w)) = _rows (self w) ∧
  _cols (self (world_after Grid.update_grid w)) = _cols (self w) ∧
  _sleep (self (world_after Grid.update_grid w)) = _sleep (self w).
Proof.
  intros Hwf. destruct (update_grid_run w Hwf) as [log Hrun].
  unfold world_after. rewrite Hrun. simpl.
  split; [done|]. split; [by apply commit_of_well_formed|].
  by rewrite commit_of_rows, commit_of_cols, commit_of_sleep.
Qed.

(** X15: on a well-formed grid, with [sleep] accepting the tick interval and
    0.1, the loop never raises, wherever it stands and whatever the reads: it
    has returned or is still running.  The world it leaves is the one left by
    as many calls of [update_grid] as it made, one after the other; each call
    is followed at once by [sleep] of the tick interval and every other sleep
    is [sleep(0.1)]; the dimensions and the tick interval are as they were. *)
Theorem state_loop_runs_generations (sleep_accepts : PyFloat.t → bool)
    (inner : bool) (reads : list Flags) (w : World)
    (Hwf : well_formed (self w))
    (Hinterval : sleep_accepts (_sleep (self w)) = true)
    (Hidle : sleep_accepts PyFloat.lit_0_1 = true) :
  ∃ e w' did,
    state_loop_from sleep_accepts inner reads w = (e, w', did) ∧
    (e = Stopped ∨ e = Pending) ∧
    w' = Nat.iter (updates did) (world_after Grid.update_grid) w ∧
    paced (_sleep (self w)) did ∧
    well_formed (self w') ∧
    _rows (self w') = _rows (self w) ∧ _cols (self w') = _cols (self w) ∧
    _sleep (self w') = _sleep (self w).
Proof.
  revert inner w Hwf Hinterval.
  induction reads as [reads IH] using reads_ind. intros inner w Hwf Hinterval.
  destruct reads as [|r reads]; [by exists Pending, w, []; simpl; auto 10|].
  destruct inner; cbn [state_loop_from].
  - destruct (game_event r).
    + destruct reads as [|r' reads]; [by exists Pending, w, []; simpl; auto 10|].
      destruct (window_event r').
      * destruct (update_grid_step w Hwf) as (Hrun & Hwf1 & Hrows & Hcols & Hsleep).
        rewrite Hrun, Hsleep, Hinterval.
        destruct (IH reads ltac:(simpl; lia) true (world_after Grid.update_grid w))
          as (e & w' & did & -> & He & Hw' & Hpaced & Hwf' & Hr' & Hc' & Hs');
          [done|by rewrite Hsleep|].
        exists e, w', (Updated :: Slept (_sleep (self w)) :: did).
        split; [done|]. split; [done|]. split; [|split; [|split]].
        -- change (w' = Nat.iter (S (updates did)) (world_after Grid.update_grid) w).
           by rewrite Nat.iter_succ_r.
        -- simpl. split; [done|]. by rewrite Hsleep in Hpaced.
        -- done.
        -- rewrite Hr', Hc', Hs'. auto.
      * rewrite Hidle.
        destruct (IH reads ltac:(simpl; lia) false w Hwf Hinterval)
          as (e & w' & did & -> & He & Hw' & Hpaced & Hrest).
        exists e, w', (Slept PyFloat.lit_0_1 :: did). simpl. auto 10.
    + rewrite Hidle.
      destruct (IH reads ltac:(simpl; lia) false w Hwf Hinterval)
        as (e & w' & did & -> & He & Hw' & Hpaced & Hrest).
      exists e, w', (Slept PyFloat.lit_0_1 :: did). simpl. auto 10.
  - destruct (window_event r).
    + apply IH; [simpl; lia|done..].
    + exists Stopped, w, []. simpl. auto 10.
Qed.

Lemma state_loop_runs_generations_witness :
  ∃ e w' did,
    state_loop_from time_sleep_accepts false example_reads blinker_5x5 = (e, w', did) ∧
    (e = Stopped ∨ e = Pending) ∧
    w' = Nat.iter (updates did) (world_after Grid.update_grid) blinker_5x5 ∧
    paced (_sleep (self blinker_5x5)) did ∧
    well_formed (self w') ∧
    _rows (self w') = _rows (self blinker_5x5) ∧
    _cols (self w') = _cols (self blinker_5x5) ∧
    _sleep (self w') = _sleep (self blinker_5x5).
Proof.
  apply (state_loop_runs_generations time_sleep_accepts false example_reads blinker_5x5).
  - by_evaluation.
  - vm_compute. reflexivity.
  - vm_compute. reflexivity.
Defined.

(** ** Several generations *)

Lemma generation_S n w :
  generation (S n) w = world_after Grid.update_grid (generation n w).
Proof. done. Qed.

Lemma generation_keeps n w :
  well_formed (self w) →
  well_formed (self (generation n w)) ∧
  _rows (self (generation n w)) = _rows (self w) ∧
  _cols (self (generation n w)) = _cols (self w).
Proof.
  intros Hwf. induction n as [|n (Hwf' & Hrows & Hcols)]; [done|].
  rewrite generation_S.
  destruct (update_grid_step _ Hwf') as (_ & Hwf'' & Hr & Hc & _).
  by rewrite Hr, Hc.
Qed.

Lemma world_after_update_grid w :
  well_formed (self w) →
  self (world_after Grid.update_grid w) = commit_of (changes_of (self w)) (self w).
Proof.
  intros Hwf. destruct (update_grid_run w Hwf) as [log Hrun].
  unfold world_after. by rewrite Hrun.
Qed.

(** A cell alive before and after a call has survived it. *)
Lemma time_at_survivor g p :
  well_formed g → in_bounds g p.1 p.2 →
  is_alive g p = true → is_alive (commit_of (changes_of g) g) p = true →
  time_at (commit_of (changes_of g) g) p = time_at g p + 1.
Proof.
  intros Hwf Hin Hbefore Hafter.
  destruct (cell_at_is_Some g p (proj1 Hwf) Hin) as [c Hc].
  unfold is_alive, alive_at, time_at in *.
  rewrite cell_at_commit_of in * by done. rewrite Hc in *. simpl in *.
  apply Z.eqb_eq in Hbefore.
  pose proof (fate_value g p c (proj2 Hwf) Hc) as Hfate.
  destruct (fate_of g p); simpl in *; try lia.
  unfold after in Hafter. simpl in Hafter. by rewrite Hbefore in Hafter.
Qed.

(** X16: the alive time counts the generations a cell has stayed alive: on a
    well-formed grid, a cell of the grid that is alive before and after each
    of [n] successive calls of [update_grid] has, after them, the alive time
    it had before plus [n]. *)
Theorem alive_time_counts_generations (w : World) (p : Z * Z) (n : nat)
    (Hwf : well_formed (self w))
    (Hin : in_bounds (self w) p.1 p.2)
    (Halive : ∀ k, (k ≤ n)%nat → is_alive (self (generation k w)) p = true) :
  time_at (self (generation n w)) p = time_at (self w) p + Z.of_nat n.
Proof.
  induction n as [|n IH]; [simpl; lia|].
  rewrite generation_S.
  destruct (generation_keeps n w Hwf) as (Hwf' & Hrows & Hcols).
  rewrite world_after_update_grid by done.
  rewrite time_at_survivor, IH; try done.
  - lia.
  - intros k Hk. apply Halive. lia.
  - unfold in_bounds. by rewrite Hrows, Hcols.
  - apply Halive. lia.
  - rewrite <- world_after_update_grid by done. rewrite <- generation_S.
    by apply Halive.
Qed.

Lemma alive_time_counts_generations_witness :
  time_at (self (generation 3 blinker_5x5)) (1, 2)
  = time_at (self blinker_5x5) (1, 2) + Z.of_nat 3.
Proof.
  apply (alive_time_counts_generations blinker_5x5 (1, 2) 3).
  - by_evaluation.
  - by_evaluation.
  - intros k Hk. destruct k as [|[|[|[|k]]]]; try lia; vm_compute; reflexivity.
Defined.

Lemma alive_at_is_alive g g' p :
  binary_valued g → binary_valued g' →
  is_alive g' p = is_alive g p → alive_at g' p = alive_at g p.
Proof.
  intros Hb Hb'. unfold is_alive.
  destruct (alive_at_binary g p Hb) as [-> | ->],
    (alive_at_binary g' p Hb') as [-> | ->]; simpl; done.
Qed.

(** One generation of a still life. *)
Lemma still_step g :
  well_formed g → still g →
  (∀ p, is_alive (commit_of (changes_of g) g) p = is_alive g p) ∧
  still (commit_of (changes_of g) g) ∧
  ∀ p, time_at (commit_of (changes_of g) g) p
       = time_at g p + (if is_alive g p then 1 else 0).
Proof.
  intros Hwf Hstill. set (g' := commit_of (changes_of g) g).
  pose proof (commit_of_well_formed g Hwf) as Hwf'. fold g' in Hwf'.
  assert (∀ p, in_bounds g p.1 p.2 → conway_alive g p = is_alive g p) as Hrule.
  { intros p Hp%elem_of_all_coords.
    exact (proj1 (Forall_forall _ _) Hstill p Hp). }
  assert (∀ p, is_alive g' p = is_alive g p) as Hsame.
  { intros p. destruct (decide (in_bounds g p.1 p.2)) as [Hp|Hp].
    - unfold g'. by rewrite is_alive_commit_of, Hrule.
    - unfold is_alive. rewrite !alive_at_outside; [done..|].
      unfold g'. by rewrite commit_of_in_bounds. }
  assert (∀ p, in_boundsb g' p = in_boundsb g p) as Hbounds.
  { intros p. unfold in_boundsb, g'. by rewrite commit_of_rows, commit_of_cols. }
  assert (∀ row col, moore_count g' row col = moore_count g row col) as Hcount.
  { intros row col. unfold moore_count.
    assert (neighbors g' row col = neighbors g row col) as ->.
    { unfold neighbors. apply list_filter_iff. intros p. by rewrite Hbounds. }
    do 2 f_equal. apply list_filter_iff. intros p. by rewrite Hsame. }
  split; [done|]. split.
  - unfold still, conway_alive, all_coords, g'.
    rewrite commit_of_rows, commit_of_cols. fold g'.
    apply Forall_forall. intros p Hp. rewrite Hcount, !Hsame.
    apply (Hrule p). by apply elem_of_all_coords.
  - intros p. destruct (decide (in_bounds g p.1 p.2)) as [Hp|Hp].
    + destruct (is_alive g p) eqn:Halive.
      * apply time_at_survivor; [done..|]. by rewrite Hsame.
      * destruct (cell_at_is_Some g p (proj1 Hwf) Hp) as [c Hc].
        pose proof (Hrule p Hp) as Hr. rewrite Halive in Hr.
        unfold conway_alive in Hr. apply orb_false_iff in Hr as [H3 _].
        unfold is_alive, alive_at in Halive. rewrite Hc in Halive.
        unfold time_at, g'. rewrite cell_at_commit_of, Hc by done. simpl.
        rewrite (fate_of_at _ _ c Hc). unfold fate_of_cell.
        apply Z.eqb_neq in Halive.
        apply cell_at_Some in Hc as [_ Hd].
        destruct (binary_valued_deref g (ref_of p) c (proj2 Hwf) Hd) as [Hv|Hv];
          [|done].
        rewrite Hv. simpl. simpl in H3. rewrite H3. simpl.
        by rewrite Z.add_0_r.
    + unfold time_at, is_alive, alive_at.
      rewrite !cell_at_outside; [done|done|]. unfold g'.
      by rewrite commit_of_in_bounds.
Qed.

(** X17: a still life stays: on a well-formed grid where the rule of the game
    leaves every cell as it is, after any number [n] of calls of
    [update_grid] the alive cells are the same, every alive cell has its
    alive time plus [n] and every dead cell the alive time it had. *)
Theorem still_life_stays (w : World) (n : nat)
    (Hwf : well_formed (self w))
    (Hstill : still (self w)) :
  alive_cells (self (generation n w)) = alive_cells (self w) ∧
  ∀ p, time_at (self (generation n w)) p
       = time_at (self w) p + (if is_alive (self w) p then Z.of_nat n else 0).
Proof.
  assert (still (self (generation n w)) ∧
          (∀ p, is_alive (self (generation n w)) p = is_alive (self w) p) ∧
          ∀ p, time_at (self (generation n w)) p
               = time_at (self w) p + (if is_alive (self w) p then Z.of_nat n else 0))
    as (_ & Hsame & Htime).
  { induction n as [|n (Hstill' & Hsame & Htime)].
    - split; [done|]. split; [done|]. intros p. simpl.
      destruct (is_alive (self w) p); lia.
    - destruct (generation_keeps n w Hwf) as (Hwf' & _ & _).
      rewrite generation_S, world_after_update_grid by done.
      destruct (still_step _ Hwf' Hstill') as (Hsame1 & Hstill1 & Htime1).
      split; [done|]. split.
      + intros p. by rewrite Hsame1, Hsame.
      + intros p. rewrite Htime1, Htime, Hsame.
        destruct (is_alive (self w) p); lia. }
  split; [|done].
  destruct (generation_keeps n w Hwf) as (_ & Hrows & Hcols).
  unfold alive_cells, all_coords. rewrite Hrows, Hcols.
  apply list_filter_iff. intros p. by rewrite Hsame.
Qed.

Lemma still_life_stays_witness :
  alive_cells (self (generation 5 block_4x4)) = alive_cells (self block_4x4) ∧
  ∀ p, time_at (self (generation 5 block_4x4)) p
       = time_at (self block_4x4) p
         + (if is_alive (self block_4x4) p then Z.of_nat 5 else 0).
Proof.
  apply (still_life_stays block_4x4 5).
  - by_evaluation.
  - apply (bool_decide_unpack _). vm_compute. exact I.
Defined.
